(** * Storage reconciliation of the note-taking application

    A shallow embedding of the storage core of the repository:

    - [Reconciler]: the two merge functions, [mergeData]
      (client/src/lib/utils/supabase.ts) and [downloadAndMerge] (the module
      imported as [@/lib/utils/webdav], src/unnamed/part_003);
    - [LocalStorage]: the IndexedDB wrapper of client/src/lib/utils/storage.ts;
    - [Sync]: [syncWithSupabase] and [syncWithWebDAV];
    - [Db]: the class [IndexedDBStorage] of client/src/lib/db.ts;
    - [MemStorage]: the in-memory server store of server/storage.ts;
    - [Mode]: the storage-type switch of context/storage-context.tsx and
      hooks/use-storage.ts.

    JavaScript numbers used as identifiers are integers of [Z]; a [Map] is a
    [gmap]; an IndexedDB object store is a [gmap] from its key to the stored
    value, read back in ascending key order. *)

From Stdlib Require Import ZArith Lia.
From stdpp Require Import base decidable option list sorting gmap strings.

Open Scope Z_scope.

(** ** JavaScript values shared by all modules *)

(** The time value of a JavaScript [Date]: a number of milliseconds, or [NaN]
    for an invalid date.  [new Date(v)] of a stored or transmitted timestamp is
    identified with this time value. *)
Inductive Date : Type :=
  | TimeMs (ms : Z)
  | InvalidDate.

Global Instance Date_eq_dec : EqDecision Date.
Proof. solve_decision. Defined.

(** [a > b] on two [Date] objects compares the time values; any comparison
    with [NaN] is false. *)
Definition date_gt (a b : Date) : bool :=
  match a, b with
  | TimeMs x, TimeMs y => bool_decide (y < x)
  | _, _ => false
  end.

(** A property that may hold [null]. *)
Inductive nullable (A : Type) : Type :=
  | Null
  | Val (a : A).
Global Arguments Null {A}.
Global Arguments Val {A} a.

Global Instance nullable_eq_dec {A} `{EqDecision A} : EqDecision (nullable A).
Proof. solve_decision. Defined.

(** [a || b] on an optional string: the empty string and [undefined] are
    falsy. *)
Definition or_string (a : option string) (b : string) : string :=
  match a with
  | Some s => if decide (s = EmptyString) then b else s
  | None => b
  end.

(** ** The Reconciler *)

Module Reconciler.
Section Merge.
(** [T extends { id: number }]; [updatedAt x = None] when the property
    ['updatedAt'] is not in [x]. *)
Context {T : Type}.
Variable id : T → Z.
Variable updatedAt : T → option Date.

(** [items.forEach(item => { if (item.id > 0) map.set(item.id, item) })] *)
Definition positiveItemMap (items : list T) : gmap Z T :=
  foldl (λ m item, if bool_decide (0 < id item) then <[id item := item]> m else m)
        ∅ items.

(** [items.forEach(item => map.set(item.id, item))] *)
Definition allItemMap (items : list T) : gmap Z T :=
  foldl (λ m item, <[id item := item]> m) ∅ items.

(** The body of the first [forEach]: the record pushed for one local item. *)
Definition pickLocal (remoteItemMap : gmap Z T) (localItem : T) : T :=
  if bool_decide (0 < id localItem) then
    match remoteItemMap !! id localItem with
    | Some remoteItem =>
        match updatedAt localItem, updatedAt remoteItem with
        | Some localDate, Some remoteDate =>
            if date_gt localDate remoteDate then localItem else remoteItem
        | _, _ => localItem
        end
    | None => localItem
    end
  else localItem.

(** [remoteItem.id > 0 && !localItemMap.has(remoteItem.id)] *)
Definition remoteOnly (localItemMap : gmap Z T) (remoteItem : T) : bool :=
  bool_decide (0 < id remoteItem)
  && bool_decide (localItemMap !! id remoteItem = None).

(** The two [forEach] loops that fill [mergedItems]. *)
Definition mergeLoops (localItemMap remoteItemMap : gmap Z T)
    (localItems remoteItems : list T) : list T :=
  let mergedItems := [] in
  let mergedItems :=
    foldl (λ merged localItem, merged ++ [pickLocal remoteItemMap localItem])
          mergedItems localItems in
  foldl (λ merged remoteItem,
           if remoteOnly localItemMap remoteItem
           then merged ++ [remoteItem] else merged)
        mergedItems remoteItems.

(** [mergeData] of [syncWithSupabase]. *)
Definition mergeData (localItems remoteItems : list T) : list T :=
  match remoteItems with
  | [] => localItems
  | _ =>
      mergeLoops (positiveItemMap localItems) (positiveItemMap remoteItems)
                 localItems remoteItems
  end.

(** The merge of [downloadAndMerge] in [syncWithWebDAV], after the download:
    [remoteItems] is [None] when [downloadFromWebDAV] returned [null]. *)
Definition downloadAndMerge (remoteItems : option (list T)) (localItems : list T)
    : list T :=
  match remoteItems with
  | None => localItems
  | Some remoteItems =>
      mergeLoops (allItemMap localItems) (positiveItemMap remoteItems)
                 localItems remoteItems
  end.

End Merge.
End Reconciler.

(** ** Stored objects

    An object kept in a store whose key path is [id] is its identifier
    together with its other properties; an object handed to a write ([put],
    [addItem], [saveNote]) may still lack the identifier. *)

Record Stored (P : Type) : Type := mkStored { id : Z; props : P }.
Global Arguments mkStored {P} id props.
Global Arguments id {P} s.
Global Arguments props {P} s.

Record Input (P : Type) : Type := mkInput { id_opt : option Z; fields : P }.
Global Arguments mkInput {P} id_opt fields.
Global Arguments id_opt {P} i.
Global Arguments fields {P} i.

Definition toInput {P} (x : Stored P) : Input P :=
  mkInput (Some (id x)) (props x).

Global Instance Stored_eq_dec {P} `{EqDecision P} : EqDecision (Stored P).
Proof. solve_decision. Defined.

(** [{...a, ...b}] on one property: the one of [b] when it has it. *)
Definition over {A} (a b : option A) : option A :=
  match b with Some _ => b | None => a end.

(** A thrown [Error(msg)] or a returned value. *)
Inductive result (A : Type) : Type :=
  | Ok (a : A)
  | Err (msg : string).
Global Arguments Ok {A} a.
Global Arguments Err {A} msg.

(** The rows of an object store in ascending key order, as [getAll] and an
    index scan over one index key return them. *)
Definition key_le {P} (a b : Z * P) : Prop := a.1 ≤ b.1.

Global Instance key_le_dec {P} (a b : Z * P) : Decision (key_le a b).
Proof. unfold key_le. apply _. Defined.

Definition rowsInKeyOrder {P} (m : gmap Z P) : list (Stored P) :=
  (λ kv, mkStored kv.1 kv.2) <$> merge_sort key_le (map_to_list m).

(** No two rows of a table carry the same pair of references. *)
Definition uniquePairs {V K : Type} (pair : V → K) (m : gmap Z V) : Prop :=
  ∀ k1 k2 a b, m !! k1 = Some a → m !! k2 = Some b → pair a = pair b → k1 = k2.

(** ** The local store of client/src/lib/utils/storage.ts *)

Module LocalStorage.

(** The properties of the second schema (shared/schema.ts). *)
Record NoteProps : Type := mkNoteProps {
  title : option string;
  content : option string;
  folderId : option (nullable Z);
  userId : option (nullable Z);
  pinned : option bool;
  color : option (nullable string);
  font : option string;
  fontSize : option string;
  createdAt : option Date;
  updatedAt : option Date
}.

Record FolderProps : Type := mkFolderProps {
  folder_name : option string;
  folder_userId : option (nullable Z);
  folder_color : option (nullable string);
  folder_createdAt : option Date
}.

Record TagProps : Type := mkTagProps {
  tag_name : option string;
  tag_userId : option (nullable Z);
  tag_color : option (nullable string);
  tag_createdAt : option Date
}.

Record NoteTagProps : Type := mkNoteTagProps { noteId : Z; tagId : Z }.

Global Instance NoteProps_eq_dec : EqDecision NoteProps.
Proof. solve_decision. Defined.
Global Instance FolderProps_eq_dec : EqDecision FolderProps.
Proof. solve_decision. Defined.
Global Instance TagProps_eq_dec : EqDecision TagProps.
Proof. solve_decision. Defined.
Global Instance NoteTagProps_eq_dec : EqDecision NoteTagProps.
Proof. solve_decision. Defined.

Definition Note := Stored NoteProps.
Definition Folder := Stored FolderProps.
Definition Tag := Stored TagProps.
Definition NoteTag := Stored NoteTagProps.

(** An object store created with [{ keyPath: 'id', autoIncrement: true }]:
    its rows and the current number of its key generator. *)
Record ObjectStore (P : Type) : Type := mkStore {
  rows : gmap Z P;
  keygen : Z
}.
Global Arguments mkStore {P} rows keygen.
Global Arguments rows {P} o.
Global Arguments keygen {P} o.

Definition emptyStore {P} : ObjectStore P := mkStore ∅ 1.

Section Store.
Context {P : Type}.

Definition getAll (s : ObjectStore P) : list (Stored P) :=
  rowsInKeyOrder (rows s).

Definition get (s : ObjectStore P) (k : Z) : option (Stored P) :=
  mkStored k <$> rows s !! k.

(** [put(value)]: a value that carries its key is stored under it, and the
    key generator moves past that key; a value without one takes the next
    generated key.  The key used is returned. *)
Definition put (v : Input P) (s : ObjectStore P) : Z * ObjectStore P :=
  match id_opt v with
  | Some k =>
      (k, mkStore (<[k := fields v]> (rows s))
                  (if bool_decide (keygen s ≤ k) then k + 1 else keygen s))
  | None =>
      (keygen s, mkStore (<[keygen s := fields v]> (rows s)) (keygen s + 1))
  end.

Definition delete_key (k : Z) (s : ObjectStore P) : ObjectStore P :=
  mkStore (delete k (rows s)) (keygen s).

(** [for (const x of xs) await store.put(x)] *)
Definition putAll (xs : list (Stored P)) (s : ObjectStore P) : ObjectStore P :=
  foldl (λ s x, (put (toInput x) s).2) s xs.
End Store.

(** What the key generator guarantees: it starts at 1 and stays above
    every key in use. *)
Definition storeOk {P} (s : ObjectStore P) : Prop :=
  1 ≤ keygen s ∧ ∀ k, is_Some (rows s !! k) → k < keygen s.

(** The pair of references of a link. *)
Definition linkOf (p : NoteTagProps) : Z * Z := (noteId p, tagId p).

(** The database [notekeeper-db]; of the [metadata] store only the
    [lastSyncTime] of each key is kept. *)
Record DB : Type := mkDB {
  notes : ObjectStore NoteProps;
  folders : ObjectStore FolderProps;
  tags : ObjectStore TagProps;
  noteTags : ObjectStore NoteTagProps;
  metadata : gmap string Date
}.

Definition emptyDB : DB := mkDB emptyStore emptyStore emptyStore emptyStore ∅.

Definition set_notes (s : ObjectStore NoteProps) (d : DB) : DB :=
  mkDB s (folders d) (tags d) (noteTags d) (metadata d).
Definition set_folders (s : ObjectStore FolderProps) (d : DB) : DB :=
  mkDB (notes d) s (tags d) (noteTags d) (metadata d).
Definition set_tags (s : ObjectStore TagProps) (d : DB) : DB :=
  mkDB (notes d) (folders d) s (noteTags d) (metadata d).
Definition set_noteTags (s : ObjectStore NoteTagProps) (d : DB) : DB :=
  mkDB (notes d) (folders d) (tags d) s (metadata d).
Definition set_metadata (m : gmap string Date) (d : DB) : DB :=
  mkDB (notes d) (folders d) (tags d) (noteTags d) m.

(** [getAllFromIndex('notes', 'by-folder', folderId)] *)
Definition getNotesByFolder (folderId' : Z) (d : DB) : list Note :=
  List.filter (λ n, bool_decide (folderId (props n) = Some (Val folderId')))
              (getAll (notes d)).

(** [getAllFromIndex('noteTags', 'by-note', noteId)] *)
Definition noteTagsByNote (noteId' : Z) (d : DB) : list NoteTag :=
  List.filter (λ nt, bool_decide (noteId (props nt) = noteId'))
              (getAll (noteTags d)).

(** [{ ...existingNote, ...note }] on the properties other than [id]. *)
Definition spreadNote (a b : NoteProps) : NoteProps :=
  {| title := over (title a) (title b);
     content := over (content a) (content b);
     folderId := over (folderId a) (folderId b);
     userId := over (userId a) (userId b);
     pinned := over (pinned a) (pinned b);
     color := over (color a) (color b);
     font := over (font a) (font b);
     fontSize := over (fontSize a) (fontSize b);
     createdAt := over (createdAt a) (createdAt b);
     updatedAt := over (updatedAt a) (updatedAt b) |}.

Definition with_updatedAt (t : Date) (p : NoteProps) : NoteProps :=
  {| title := title p; content := content p; folderId := folderId p;
     userId := userId p; pinned := pinned p; color := color p;
     font := font p; fontSize := fontSize p; createdAt := createdAt p;
     updatedAt := Some t |}.

(** [note.id && note.id > 0] *)
Definition positiveId (i : option Z) : option Z :=
  match i with
  | Some k => if bool_decide (0 < k) then Some k else None
  | None => None
  end.

Section Clock.
(** [now n] is the [n]-th reading of [new Date()] during one call. *)
Variable now : nat → Date.

(** The object built for a new note: it has no [id]. *)
Definition newNote (note : NoteProps) : NoteProps :=
  {| title := Some (or_string (title note) "Untitled Note");
     content := Some (or_string (content note) EmptyString);
     folderId := folderId note;
     userId := userId note;
     pinned := Some (default false (pinned note));
     color := Some (match color note with
                    | Some (Val c) => if decide (c = EmptyString) then Null else Val c
                    | _ => Null
                    end);
     font := Some (or_string (font note) "Inter");
     fontSize := Some (or_string (fontSize note) "16px");
     createdAt := Some (now 0%nat);
     updatedAt := Some (now 1%nat) |}.

Definition saveNote (note : Input NoteProps) (d : DB) : option Note * DB :=
  let noteToSave :=
    match positiveId (id_opt note) with
    | Some k =>
        match get (notes d) k with
        | Some existingNote =>
            mkInput (id_opt note)
              (with_updatedAt (now 0%nat) (spreadNote (props existingNote) (fields note)))
        | None => note
        end
    | None => mkInput None (newNote (fields note))
    end in
  let '(key, store) := put noteToSave (notes d) in
  (get store key, set_notes store d).
End Clock.

(** [deleteFolder]: the notes of the folder and their links are deleted
    with the folder.  The requests run in program order; the lifetime of
    the IndexedDB transaction is not modelled. *)
Definition deleteNoteAndLinks (d : DB) (note : Note) : DB :=
  let links := noteTagsByNote (id note) d in
  let d := foldl (λ d nt, set_noteTags (delete_key (id nt) (noteTags d)) d) d links in
  set_notes (delete_key (id note) (notes d)) d.

Definition deleteFolder (folderId' : Z) (d : DB) : bool * DB :=
  let notes_in_folder := getNotesByFolder folderId' d in
  let d := foldl deleteNoteAndLinks d notes_in_folder in
  (true, set_folders (delete_key folderId' (folders d)) d).

Definition addTagToNote (noteId' tagId' : Z) (d : DB) : result (option NoteTag) * DB :=
  let existingNoteTags := noteTagsByNote noteId' d in
  if existsb (λ nt, bool_decide (tagId (props nt) = tagId')) existingNoteTags
  then (Err "This tag is already added to the note", d)
  else
    let '(key, store) := put (mkInput None (mkNoteTagProps noteId' tagId')) (noteTags d) in
    (Ok (get store key), set_noteTags store d).

Definition saveMetadata (key : string) (lastSyncTime : Date) (d : DB) : DB :=
  set_metadata (<[key := lastSyncTime]> (metadata d)) d.

(** The four entity arrays of a remote answer or of a merge; [None] is a
    property that is [undefined]. *)
Record Data : Type := mkData {
  data_notes : option (list Note);
  data_folders : option (list Folder);
  data_tags : option (list Tag);
  data_noteTags : option (list NoteTag)
}.

(** What [exportAllData] returns. *)
Record Exported : Type := mkExported {
  ex_notes : list Note;
  ex_folders : list Folder;
  ex_tags : list Tag;
  ex_noteTags : list NoteTag;
  ex_metadata : gmap string Date
}.

Definition exportAllData (d : DB) : Exported :=
  {| ex_notes := getAll (notes d);
     ex_folders := getAll (folders d);
     ex_tags := getAll (tags d);
     ex_noteTags := getAll (noteTags d);
     ex_metadata := metadata d |}.

(** [if (data.xs && data.xs.length > 0) for (const x of data.xs) put(x)],
    in the order folders, tags, notes, note tags. *)
Definition importAllData (data : Data) (d : DB) : DB :=
  let d := set_folders (putAll (default [] (data_folders data)) (folders d)) d in
  let d := set_tags (putAll (default [] (data_tags data)) (tags d)) d in
  let d := set_notes (putAll (default [] (data_notes data)) (notes d)) d in
  set_noteTags (putAll (default [] (data_noteTags data)) (noteTags d)) d.

(** *** The other operations of utils/storage.ts *)

(** [getAllFromIndex('noteTags', 'by-tag', tagId)] *)
Definition noteTagsByTag (tagId' : Z) (d : DB) : list NoteTag :=
  List.filter (λ nt, bool_decide (tagId (props nt) = tagId'))
              (getAll (noteTags d)).

(** [for (const noteTag of noteTags) await tx.objectStore('noteTags').delete(noteTag.id)] *)
Definition deleteLinks (links : list NoteTag) (d : DB) : DB :=
  foldl (λ d nt, set_noteTags (delete_key (id nt) (noteTags d)) d) d links.

Definition deleteNote (k : Z) (d : DB) : bool * DB :=
  let links := noteTagsByNote k d in
  let d := deleteLinks links d in
  (true, set_notes (delete_key k (notes d)) d).

Definition deleteTag (k : Z) (d : DB) : bool * DB :=
  let links := noteTagsByTag k d in
  let d := deleteLinks links d in
  (true, set_tags (delete_key k (tags d)) d).

Definition removeTagFromNote (noteId' tagId' : Z) (d : DB) : result bool * DB :=
  let links := noteTagsByNote noteId' d in
  match List.find (λ nt, bool_decide (tagId (props nt) = tagId')) links with
  | None => (Err "Tag is not associated with this note", d)
  | Some noteTag => (Ok true, set_noteTags (delete_key (id noteTag) (noteTags d)) d)
  end.

(** [getTagsForNote]: the tags of the links of the note that are found. *)
Definition getTagsForNote (noteId' : Z) (d : DB) : list Tag :=
  omap (λ nt, get (tags d) (tagId (props nt))) (noteTagsByNote noteId' d).

(** [getNotesForTag]: the notes of the links of the tag that are found. *)
Definition getNotesForTag (tagId' : Z) (d : DB) : list Note :=
  omap (λ nt, get (notes d) (noteId (props nt))) (noteTagsByTag tagId' d).

(** [{ ...existingFolder, ...folder }] and [{ ...existingTag, ...tag }] on the
    properties other than [id]. *)
Definition spreadFolder (a b : FolderProps) : FolderProps :=
  {| folder_name := over (folder_name a) (folder_name b);
     folder_userId := over (folder_userId a) (folder_userId b);
     folder_color := over (folder_color a) (folder_color b);
     folder_createdAt := over (folder_createdAt a) (folder_createdAt b) |}.

Definition spreadTag (a b : TagProps) : TagProps :=
  {| tag_name := over (tag_name a) (tag_name b);
     tag_userId := over (tag_userId a) (tag_userId b);
     tag_color := over (tag_color a) (tag_color b);
     tag_createdAt := over (tag_createdAt a) (tag_createdAt b) |}.

(** [x || null] on an optional, nullable string. *)
Definition or_null (a : option (nullable string)) : nullable string :=
  match a with
  | Some (Val c) => if decide (c = EmptyString) then Null else Val c
  | _ => Null
  end.

Section SaveClock.
(** [now n] is the [n]-th reading of [new Date()] during one call. *)
Variable now : nat → Date.

Definition newFolder (folder : FolderProps) : FolderProps :=
  {| folder_name := Some (or_string (folder_name folder) "New Folder");
     folder_userId := folder_userId folder;
     folder_color := Some (or_null (folder_color folder));
     folder_createdAt := Some (now 0%nat) |}.


Definition newTag (tag : TagProps) : TagProps :=
  {| tag_name := Some (or_string (tag_name tag) "New Tag");
     tag_userId := tag_userId tag;
     tag_color := Some (or_null (tag_color tag));
     tag_createdAt := Some (now 0%nat) |}.

End SaveClock.


(** [clear()] empties an object store and leaves its key generator where it
    is. *)
Definition clearStore {P} (s : ObjectStore P) : ObjectStore P :=
  mkStore ∅ (keygen s).

Definition clearLocalStorage (d : DB) : DB :=
  mkDB (clearStore (notes d)) (clearStore (folders d)) (clearStore (tags d))
       (clearStore (noteTags d)) ∅.

(** [importAllData] applied to what [exportAllData] returned: the four
    arrays as in [importAllData], then every entry of [data.metadata]. *)
Definition asData (e : Exported) : Data :=
  mkData (Some (ex_notes e)) (Some (ex_folders e)) (Some (ex_tags e))
         (Some (ex_noteTags e)).

Definition importExported (e : Exported) (d : DB) : DB :=
  let d := importAllData (asData e) d in
  set_metadata (foldl (λ m kv, <[kv.1 := kv.2]> m) (metadata d)
                      (map_to_list (ex_metadata e))) d.


End LocalStorage.


(** ** The sync passes of utils/supabase.ts and utils/webdav.ts *)

Module Sync.
Import Reconciler LocalStorage.

(** [dataType?: 'notes' | 'folders' | 'tags'] *)
Inductive DataType : Type := dtNotes | dtFolders | dtTags.

Global Instance DataType_eq_dec : EqDecision DataType.
Proof. solve_decision. Defined.

(** [!dataType || dataType === kind] *)
Definition wants (dataType : option DataType) (kind : DataType) : bool :=
  match dataType with
  | None => true
  | Some d => bool_decide (d = kind)
  end.

(** ['updatedAt' in item]: only notes have the property. *)
Definition note_updatedAt (n : Note) : option Date := updatedAt (props n).
Definition no_updatedAt {P} (x : Stored P) : option Date := None.



(** What one remote write carries. *)
Inductive Upload : Type :=
  | UpNotesAndLinks (ns : list Note) (nts : list NoteTag)
  | UpNotes (ns : list Note)
  | UpNoteTags (nts : list NoteTag)
  | UpFolders (fs : list Folder)
  | UpTags (ts : list Tag).

(** The end of a sync call: [return b], or the error thrown again by its
    [catch]. *)
Inductive Outcome : Type :=
  | Returned (b : bool)
  | Thrown.

Record Run : Type := mkRun {
  outcome : Outcome;
  local_after : DB;
  uploaded : list Upload
}.

(** The remote writes in program order, up to the first one that throws. *)
Fixpoint uploadAll (accepts : Upload → bool) (ups : list Upload)
    : bool * list Upload :=
  match ups with
  | [] => (true, [])
  | u :: ups =>
      if accepts u then
        let '(ok, done) := uploadAll accepts ups in (ok, u :: done)
      else (false, [])
  end.

Section Pass.
(** [now n] is the [n]-th reading of [new Date()] during the call. *)
Variable now : nat → Date.

(** *** Supabase *)

(** The answers of the API: [None] for a request that throws. *)
Record SupabaseApi : Type := mkApi {
  api_notes : option (list Note);
  api_noteTags : option (list NoteTag);
  api_folders : option (list Folder);
  api_tags : option (list Tag);
  api_post : Upload → bool
}.

(** The four guarded GET requests; [None] when one of them throws. *)
Definition fetchSupabase (dataType : option DataType) (api : SupabaseApi)
    : option Data :=
  ns ← (if wants dataType dtNotes then Some <$> api_notes api else Some None);
  nts ← (if wants dataType dtNotes then Some <$> api_noteTags api else Some None);
  fs ← (if wants dataType dtFolders then Some <$> api_folders api else Some None);
  ts ← (if wants dataType dtTags then Some <$> api_tags api else Some None);
  Some (mkData ns fs ts nts).

(** [mergedData] of [syncWithSupabase]; [remoteData.xs || []]. *)
Definition mergeSupabase (dataType : option DataType) (localData : Exported)
    (remoteData : Data)
    : Data :=
  {| data_notes :=
       if wants dataType dtNotes
       then Some (mergeData id note_updatedAt (ex_notes localData)
                            (default [] (data_notes remoteData)))
       else None;
     data_noteTags :=
       if wants dataType dtNotes
       then Some (mergeData id no_updatedAt (ex_noteTags localData)
                            (default [] (data_noteTags remoteData)))
       else None;
     data_folders :=
       if wants dataType dtFolders
       then Some (mergeData id no_updatedAt (ex_folders localData)
                            (default [] (data_folders remoteData)))
       else None;
     data_tags :=
       if wants dataType dtTags
       then Some (mergeData id no_updatedAt (ex_tags localData)
                            (default [] (data_tags remoteData)))
       else None |}.

(** The POST requests of one pass, in program order. *)
Definition supabaseUploads (dataType : option DataType) (merged : Data)
    : list Upload :=
  (if wants dataType dtNotes
   then [UpNotesAndLinks (default [] (data_notes merged))
                         (default [] (data_noteTags merged))]
   else [])
  ++ (if wants dataType dtFolders
      then [UpFolders (default [] (data_folders merged))] else [])
  ++ (if wants dataType dtTags
      then [UpTags (default [] (data_tags merged))] else []).

(** [user] is the identifier of the signed-in user, if there is one. *)
Definition syncWithSupabase (user : option Z) (dataType : option DataType)
    (api : SupabaseApi) (d : DB) : Run :=
  match user with
  | Some uid =>
      if decide (uid = 0) then mkRun (Returned false) d []
      else
        match fetchSupabase dataType api with
        | None => mkRun Thrown d []
        | Some remoteData =>
            let localData := exportAllData d in
            let mergedData := mergeSupabase dataType localData remoteData in
            let d := importAllData mergedData d in
            let '(ok, done) :=
              uploadAll (api_post api) (supabaseUploads dataType mergedData) in
            if ok
            then mkRun (Returned true) (saveMetadata "supabase-sync" (now 0%nat) d) done
            else mkRun Thrown d done
        end
  | None => mkRun (Returned false) d []
  end.

(** *** WebDAV *)

Record WebDAVConfig : Type := mkConfig {
  endpoint : string;
  username : option string;
  password : option string;
  enabled : bool
}.

(** The server as the pass meets it: whether [getWebDAVClient] resolves,
    what [downloadFromWebDAV] returns for each file ([None] for [null]: the
    file is missing or the download failed), and which uploads succeed. *)
Record WebDAVServer : Type := mkServer {
  connects : bool;
  file_notes : option (list Note);
  file_noteTags : option (list NoteTag);
  file_folders : option (list Folder);
  file_tags : option (list Tag);
  accepts : Upload → bool
}.

(** [mergedData] of [syncWithWebDAV]. *)
Definition mergeWebDAV (dataType : option DataType) (localData : Exported)
    (srv : WebDAVServer)
    : Data :=
  {| data_notes :=
       if wants dataType dtNotes
       then Some (downloadAndMerge id note_updatedAt (file_notes srv) (ex_notes localData))
       else None;
     data_noteTags :=
       if wants dataType dtNotes
       then Some (downloadAndMerge id no_updatedAt (file_noteTags srv)
                                   (ex_noteTags localData))
       else None;
     data_folders :=
       if wants dataType dtFolders
       then Some (downloadAndMerge id no_updatedAt (file_folders srv)
                                   (ex_folders localData))
       else None;
     data_tags :=
       if wants dataType dtTags
       then Some (downloadAndMerge id no_updatedAt (file_tags srv) (ex_tags localData))
       else None |}.

Definition webdavUploads (dataType : option DataType) (merged : Data)
    : list Upload :=
  (if wants dataType dtNotes
   then [UpNotes (default [] (data_notes merged));
         UpNoteTags (default [] (data_noteTags merged))]
   else [])
  ++ (if wants dataType dtFolders
      then [UpFolders (default [] (data_folders merged))] else [])
  ++ (if wants dataType dtTags
      then [UpTags (default [] (data_tags merged))] else []).

Definition syncWithWebDAV (config : WebDAVConfig) (dataType : option DataType)
    (srv : WebDAVServer) (d : DB) : Run :=
  if negb (enabled config) then mkRun (Returned false) d []
  else if negb (connects srv) then mkRun Thrown d []
  else
    let localData := exportAllData d in
    let mergedData := mergeWebDAV dataType localData srv in
    let d := importAllData mergedData d in
    let '(ok, done) := uploadAll (accepts srv) (webdavUploads dataType mergedData) in
    if ok
    then mkRun (Returned true) (saveMetadata "webdav-sync" (now 0%nat) d) done
    else mkRun Thrown d done.

(** *** The callers of lib/hooks/useStorage.ts *)

Inductive StorageType : Type := stLocal | stWebdav | stSupabase.

(** The state of the hook [useStorage]; [hook_user] is the identifier of the
    signed-in user. *)
Record Hook : Type := mkHook {
  hook_type : StorageType;
  hook_webdavConfig : option WebDAVConfig;
  hook_user : option Z;
  isInitialized : bool
}.

(** The pass that the hook starts for its storage type, if any. *)
Definition hookPass (dataType : option DataType) (h : Hook)
    (api : SupabaseApi) (srv : WebDAVServer) (d : DB) : option Run :=
  match hook_type h, hook_webdavConfig h, hook_user h with
  | stWebdav, Some config, _ => Some (syncWithWebDAV config dataType srv d)
  | stSupabase, _, Some uid => Some (syncWithSupabase (Some uid) dataType api d)
  | _, _, _ => None
  end.

(** What a sync function of the hook leaves: the value it returns ([None]
    for [undefined]), the local store, the remote writes, and whether the
    "Sync failed" toast was shown. *)
Record HookRun : Type := mkHookRun {
  returned : option bool;
  hook_local : DB;
  hook_uploaded : list Upload;
  sync_failed_toast : bool
}.

Definition hookSync (dataType : option DataType) (toast : bool) (h : Hook)
    (api : SupabaseApi) (srv : WebDAVServer) (d : DB) : HookRun :=
  if negb (isInitialized h) then mkHookRun None d [] false
  else
    match hookPass dataType h api srv d with
    | None => mkHookRun (Some true) d [] false
    | Some r =>
        match outcome r with
        | Thrown => mkHookRun (Some false) (local_after r) (uploaded r) toast
        | Returned _ => mkHookRun (Some true) (local_after r) (uploaded r) false
        end
    end.

Definition syncData := hookSync None true.
Definition syncNotes := hookSync (Some dtNotes) false.
Definition syncFolders := hookSync (Some dtFolders) false.
Definition syncTags := hookSync (Some dtTags) false.

End Pass.
End Sync.


(** ** The class [IndexedDBStorage] of client/src/lib/db.ts *)

Module Db.

(** The properties of the first schema (shared/schema.ts). *)
Record NoteProps : Type := mkNoteProps {
  title : option string;
  content : option string;
  preview : option string;
  backgroundColor : option string;
  textColor : option string;
  fontFamily : option string;
  isPinned : option bool;
  folderId : option (nullable Z);
  userId : option (nullable Z);
  createdAt : option Date;
  updatedAt : option Date
}.

Record FolderProps : Type := mkFolderProps {
  folder_name : option string;
  folder_userId : option (nullable Z)
}.

Record TagProps : Type := mkTagProps {
  tag_name : option string;
  tag_color : option string;
  tag_userId : option (nullable Z)
}.

Record NoteTagProps : Type := mkNoteTagProps { noteId : Z; tagId : Z }.

Global Instance DbNoteProps_eq_dec : EqDecision NoteProps.
Proof. solve_decision. Defined.
Global Instance DbFolderProps_eq_dec : EqDecision FolderProps.
Proof. solve_decision. Defined.
Global Instance DbTagProps_eq_dec : EqDecision TagProps.
Proof. solve_decision. Defined.
Global Instance DbNoteTagProps_eq_dec : EqDecision NoteTagProps.
Proof. solve_decision. Defined.

Definition Note := Stored NoteProps.
Definition Folder := Stored FolderProps.
Definition Tag := Stored TagProps.
Definition NoteTag := Stored NoteTagProps.
Definition NoteWithTags : Type := Note * list Tag.

(** [Object.values(STORES)] *)
Inductive StoreName : Type := stFolders | stNotes | stTags | stNoteTags.

Global Instance StoreName_eq_dec : EqDecision StoreName.
Proof. solve_decision. Defined.

Definition STORES : list StoreName := [stFolders; stNotes; stTags; stNoteTags].

(** The database [notecraft_db] (object stores with key path [id], no key
    generator) together with the fields of the instance that uses it:
    whether [init] has run ([connectedPromise]) and [idCounters]. *)
Record IndexedDBStorage : Type := mkDb {
  connected : bool;
  folders : gmap Z FolderProps;
  notes : gmap Z NoteProps;
  tags : gmap Z TagProps;
  noteTags : gmap Z NoteTagProps;
  idCounters : StoreName → Z
}.

(** A new instance over an empty database. *)
Definition newDb : IndexedDBStorage := mkDb false ∅ ∅ ∅ ∅ (λ _, 1).

(** The pair of references of a link. *)
Definition linkOf (p : NoteTagProps) : Z * Z := (noteId p, tagId p).

(** The properties of the objects of each store. *)
Definition propsOf (s : StoreName) : Type :=
  match s with
  | stFolders => FolderProps
  | stNotes => NoteProps
  | stTags => TagProps
  | stNoteTags => NoteTagProps
  end.

(** The rows of the object store [s]. *)
Definition items (s : StoreName) : IndexedDBStorage → gmap Z (propsOf s) :=
  match s with
  | stFolders => folders
  | stNotes => notes
  | stTags => tags
  | stNoteTags => noteTags
  end.

Definition set_items (s : StoreName)
    : gmap Z (propsOf s) → IndexedDBStorage → IndexedDBStorage :=
  match s with
  | stFolders => λ t d,
      mkDb (connected d) t (notes d) (tags d) (noteTags d) (idCounters d)
  | stNotes => λ t d,
      mkDb (connected d) (folders d) t (tags d) (noteTags d) (idCounters d)
  | stTags => λ t d,
      mkDb (connected d) (folders d) (notes d) t (noteTags d) (idCounters d)
  | stNoteTags => λ t d,
      mkDb (connected d) (folders d) (notes d) (tags d) t (idCounters d)
  end.

(** The rows that a unique index of the store forbids to coexist: only
    [noteTags] has one, [noteId_tagId] on [[noteId, tagId]]. *)
Definition clash (s : StoreName) : propsOf s → propsOf s → bool :=
  match s with
  | stNoteTags => λ a b, bool_decide (noteId a = noteId b ∧ tagId a = tagId b)
  | _ => λ _ _, false
  end.

Definition set_counter (s : StoreName) (v : Z) (d : IndexedDBStorage)
    : IndexedDBStorage :=
  mkDb (connected d) (folders d) (notes d) (tags d) (noteTags d)
       (λ s', if decide (s' = s) then v else idCounters d s').

Definition set_connected (b : bool) (d : IndexedDBStorage) : IndexedDBStorage :=
  mkDb b (folders d) (notes d) (tags d) (noteTags d) (idCounters d).

(** The identifiers of [getAllItems(storeName)]. *)
Definition storeIds (s : StoreName) (d : IndexedDBStorage) : list Z :=
  id <$> rowsInKeyOrder (items s d).

(** [Math.max(...ids)] of a non-empty array. *)
Definition Math_max (first : Z) (rest : list Z) : Z := foldl Z.max first rest.

(** The body of the loop of [loadIdCounters]. *)
Definition loadCounter (d : IndexedDBStorage) (storeName : StoreName)
    : IndexedDBStorage :=
  match storeIds storeName d with
  | [] => d
  | i :: ids => set_counter storeName (Math_max i ids + 1) d
  end.

Definition loadIdCounters (d : IndexedDBStorage) : IndexedDBStorage :=
  foldl loadCounter d STORES.


(** [init]: the first call opens the database (taken to succeed) and loads
    the counters; later calls return the same promise. *)
Definition init (d : IndexedDBStorage) : IndexedDBStorage :=
  if connected d then d else loadIdCounters (set_connected true d).

(** [return this.idCounters[storeName]++] *)
Definition getNextId (s : StoreName) (d : IndexedDBStorage) : Z * IndexedDBStorage :=
  (idCounters d s, set_counter s (idCounters d s + 1) d).

Section Items.
Variable store : StoreName.

Definition getAllItems (d : IndexedDBStorage) : list (Stored (propsOf store)) :=
  rowsInKeyOrder (items store d).

Definition getItem (k : Z) (d : IndexedDBStorage) : option (Stored (propsOf store)) :=
  mkStored k <$> items store d !! k.

(** [store.put(item)]: fails when a unique index already holds the same
    index key under another primary key. *)
Definition put (x : Stored (propsOf store)) (d : IndexedDBStorage)
    : option IndexedDBStorage :=
  if bool_decide (∃ k p, items store d !! k = Some p
                         ∧ k ≠ id x ∧ clash store p (props x) = true)
  then None
  else Some (set_items store (<[id x := props x]> (items store d)) d).

(** [addItem]: [None] when the request fails. *)
Definition addItem (item : Input (propsOf store)) (d : IndexedDBStorage)
    : option (Stored (propsOf store)) * IndexedDBStorage :=
  let '(k, d) :=
    match id_opt item with
    | None => getNextId store d
    | Some i => if decide (i = 0) then getNextId store d else (i, d)
    end in
  match put (mkStored k (fields item)) d with
  | Some d' => (Some (mkStored k (fields item)), d')
  | None => (None, d)
  end.

(** [updateItem]: [{ ...existingItem, ...updates }] is put under the [id] it
    ends up with. *)
Definition updateItem (spread : propsOf store → propsOf store → propsOf store)
    (k : Z) (updates : Input (propsOf store)) (d : IndexedDBStorage)
    : option (Stored (propsOf store)) * IndexedDBStorage :=
  match getItem k d with
  | None => (None, d)
  | Some existingItem =>
      let updatedItem :=
        mkStored (default (id existingItem) (id_opt updates))
                 (spread (props existingItem) (fields updates)) in
      match put updatedItem d with
      | Some d' => (Some updatedItem, d')
      | None => (None, d)
      end
  end.

Definition deleteItem (k : Z) (d : IndexedDBStorage) : bool * IndexedDBStorage :=
  (true, set_items store (delete k (items store d)) d).
End Items.


(** [queryIndex(STORES.noteTags, 'noteId', noteId)] *)
Definition noteTagsOfNote (noteId' : Z) (d : IndexedDBStorage) : list NoteTag :=
  List.filter (λ nt, bool_decide (noteId (props nt) = noteId'))
              (getAllItems stNoteTags d).

Definition getTag (k : Z) (d : IndexedDBStorage) : option Tag :=
  getItem stTags k (init d).

Definition getNoteTagsAsArray (noteId' : Z) (d : IndexedDBStorage) : list Tag :=
  let tagIds := (λ relation, tagId (props relation)) <$> noteTagsOfNote noteId' d in
  omap (λ t, getTag t d) tagIds.

Definition getAllNotes (d : IndexedDBStorage) : list NoteWithTags :=
  let d := init d in
  (λ note, (note, getNoteTagsAsArray (id note) d)) <$> getAllItems stNotes d.

Definition getNotesByFolder (folderId' : Z) (d : IndexedDBStorage)
    : list NoteWithTags :=
  let d := init d in
  List.filter (λ note, bool_decide (folderId (props note.1) = Some (Val folderId')))
              (getAllNotes d).


(** [{ ...existing, ...updates }] on the properties other than [id]. *)
Definition spreadNote (a b : NoteProps) : NoteProps :=
  {| title := over (title a) (title b);
     content := over (content a) (content b);
     preview := over (preview a) (preview b);
     backgroundColor := over (backgroundColor a) (backgroundColor b);
     textColor := over (textColor a) (textColor b);
     fontFamily := over (fontFamily a) (fontFamily b);
     isPinned := over (isPinned a) (isPinned b);
     folderId := over (folderId a) (folderId b);
     userId := over (userId a) (userId b);
     createdAt := over (createdAt a) (createdAt b);
     updatedAt := over (updatedAt a) (updatedAt b) |}.


Definition with_updatedAt (t : Date) (p : NoteProps) : NoteProps :=
  {| title := title p; content := content p; preview := preview p;
     backgroundColor := backgroundColor p; textColor := textColor p;
     fontFamily := fontFamily p; isPinned := isPinned p; folderId := folderId p;
     userId := userId p; createdAt := createdAt p; updatedAt := Some t |}.

(** [{ folderId: null }] *)
Definition folderIdNull : Input NoteProps :=
  mkInput None
    (mkNoteProps None None None None None None None (Some Null) None None None).


(** [updateNote(id, note)] when [new Date()] reads [t]. *)
Definition updateNote (t : Date) (k : Z) (note : Input NoteProps)
    (d : IndexedDBStorage) : option Note * IndexedDBStorage :=
  let d := init d in
  let updates := mkInput (id_opt note) (with_updatedAt t (fields note)) in
  updateItem stNotes spreadNote k updates d.

Section Clock.
(** [now n] is the [n]-th reading of [new Date()] during one call. *)
Variable now : nat → Date.

(** [for (const note of notes) await this.updateNote(note.id, { folderId: null })];
    [n] clock readings were made before. *)
Fixpoint unfileNotes (n : nat) (notes_in_folder : list NoteWithTags)
    (d : IndexedDBStorage) : IndexedDBStorage :=
  match notes_in_folder with
  | [] => d
  | note :: rest =>
      unfileNotes (S n) rest (updateNote (now n) (id note.1) folderIdNull d).2
  end.

Definition deleteFolder (k : Z) (d : IndexedDBStorage) : bool * IndexedDBStorage :=
  let d := init d in
  let notes_in_folder := getNotesByFolder k d in
  let d := unfileNotes 0 notes_in_folder d in
  deleteItem stFolders k d.
End Clock.

(** [allNoteTags.find(nt => nt.noteId === noteId && nt.tagId === tagId)] *)
Definition existingRelation (noteId' tagId' : Z) (d : IndexedDBStorage)
    : option NoteTag :=
  let allNoteTags := getAllItems stNoteTags d in
  List.find (λ nt, bool_decide (noteId (props nt) = noteId')
                   && bool_decide (tagId (props nt) = tagId'))
            allNoteTags.

Definition addTagToNote (noteId' tagId' : Z) (d : IndexedDBStorage)
    : result unit * IndexedDBStorage :=
  let d := init d in
  match existingRelation noteId' tagId' d with
  | Some _ => (Ok (), d)
  | None =>
      match addItem stNoteTags (mkInput (Some 0) (mkNoteTagProps noteId' tagId')) d with
      | (Some _, d') => (Ok (), d')
      | (None, d') => (Err "ConstraintError", d')
      end
  end.

(** *** The other operations of db.ts *)

(** [x || null] on an optional reference: [0] is falsy too. *)
Definition or_nullZ (a : option (nullable Z)) : nullable Z :=
  match a with
  | Some (Val k) => if decide (k = 0) then Null else Val k
  | _ => Null
  end.

(** The objects that [createFolder], [createNote] and [createTag] build;
    [t] is the reading of [new Date()]. *)
Definition newFolder (folder : FolderProps) : FolderProps :=
  {| folder_name := Some (or_string (folder_name folder) "Untitled Folder");
     folder_userId := Some (or_nullZ (folder_userId folder)) |}.

Definition newNote (t : Date) (note : NoteProps) : NoteProps :=
  {| title := Some (or_string (title note) "Untitled Note");
     content := Some (or_string (content note) EmptyString);
     preview := Some (or_string (preview note) EmptyString);
     backgroundColor := Some (or_string (backgroundColor note) "#ffffff");
     textColor := Some (or_string (textColor note) "#000000");
     fontFamily := Some (or_string (fontFamily note) "Inter");
     isPinned := Some (default false (isPinned note));
     folderId := Some (or_nullZ (folderId note));
     userId := Some (or_nullZ (userId note));
     createdAt := Some t;
     updatedAt := Some t |}.

Definition newTag (tag : TagProps) : TagProps :=
  {| tag_name := Some (or_string (tag_name tag) "New Tag");
     tag_color := Some (or_string (tag_color tag) "#3B82F6");
     tag_userId := Some (or_nullZ (tag_userId tag)) |}.




Definition spreadFolder (a b : FolderProps) : FolderProps :=
  {| folder_name := over (folder_name a) (folder_name b);
     folder_userId := over (folder_userId a) (folder_userId b) |}.

Definition spreadTag (a b : TagProps) : TagProps :=
  {| tag_name := over (tag_name a) (tag_name b);
     tag_color := over (tag_color a) (tag_color b);
     tag_userId := over (tag_userId a) (tag_userId b) |}.



Definition getNote (k : Z) (d : IndexedDBStorage) : option NoteWithTags :=
  let d := init d in
  match getItem stNotes k d with
  | None => None
  | Some note => Some (note, getNoteTagsAsArray k d)
  end.

(** [queryIndex(STORES.noteTags, 'tagId', tagId)] *)
Definition noteTagsOfTag (tagId' : Z) (d : IndexedDBStorage) : list NoteTag :=
  List.filter (λ nt, bool_decide (tagId (props nt) = tagId'))
              (getAllItems stNoteTags d).

(** [queryIndex(STORES.noteTags, 'noteId_tagId', [noteId, tagId])] *)
Definition relationsOf (noteId' tagId' : Z) (d : IndexedDBStorage) : list NoteTag :=
  List.filter (λ nt, bool_decide (noteId (props nt) = noteId')
                     && bool_decide (tagId (props nt) = tagId'))
              (getAllItems stNoteTags d).

(** [for (const noteTag of noteTags) await this.deleteItem(STORES.noteTags, noteTag.id)] *)
Definition deleteRelations (links : list NoteTag) (d : IndexedDBStorage)
    : IndexedDBStorage :=
  foldl (λ d nt, (deleteItem stNoteTags (id nt) d).2) d links.

Definition deleteNote (k : Z) (d : IndexedDBStorage) : bool * IndexedDBStorage :=
  let d := init d in
  let links := noteTagsOfNote k d in
  let d := deleteRelations links d in
  deleteItem stNotes k d.

Definition deleteTag (k : Z) (d : IndexedDBStorage) : bool * IndexedDBStorage :=
  let d := init d in
  let links := noteTagsOfTag k d in
  let d := deleteRelations links d in
  deleteItem stTags k d.

Definition removeTagFromNote (noteId' tagId' : Z) (d : IndexedDBStorage)
    : bool * IndexedDBStorage :=
  let d := init d in
  match relationsOf noteId' tagId' d with
  | [] => (false, d)
  | relation :: _ => (true, (deleteItem stNoteTags (id relation) d).2)
  end.







End Db.


(** ** The in-memory store of server/storage.ts *)

Module MemStorage.

(** [NoteTag] of the first schema: both references may be [null]. *)
Record NoteTag : Type := mkNoteTag {
  nt_id : Z;
  noteId : nullable Z;
  tagId : nullable Z
}.

Global Instance NoteTag_eq_dec : EqDecision NoteTag.
Proof. solve_decision. Defined.

(** The pair of references of a link. *)
Definition linkOf (nt : NoteTag) : nullable Z * nullable Z := (noteId nt, tagId nt).

(** The fields of [MemStorage] that [addTagToNote] reads and writes. *)
Record MemStorage : Type := mkMem {
  noteTags : gmap Z NoteTag;
  noteTagIdCounter : Z
}.

(** [Array.from(this.noteTags.values())] *)
Definition values (m : gmap Z NoteTag) : list NoteTag := (map_to_list m).*2.

(** A new instance. *)
Definition newMem : MemStorage := mkMem ∅ 1.

Definition addTagToNote (noteId' tagId' : Z) (s : MemStorage) : NoteTag * MemStorage :=
  let existing :=
    List.find (λ nt, bool_decide (noteId nt = Val noteId')
                     && bool_decide (tagId nt = Val tagId'))
              (values (noteTags s)) in
  match existing with
  | Some existing => (existing, s)
  | None =>
      let id := noteTagIdCounter s in
      let noteTag := mkNoteTag id (Val noteId') (Val tagId') in
      (noteTag, mkMem (<[id := noteTag]> (noteTags s)) (noteTagIdCounter s + 1))
  end.

(** [Array.from(this.noteTags.entries())] *)
Definition entries (m : gmap Z NoteTag) : list (Z * NoteTag) := map_to_list m.

Definition removeTagFromNote (noteId' tagId' : Z) (s : MemStorage) : bool * MemStorage :=
  let noteTagEntry :=
    List.find (λ e : Z * NoteTag,
                 bool_decide (noteId e.2 = Val noteId')
                 && bool_decide (tagId e.2 = Val tagId'))
              (entries (noteTags s)) in
  match noteTagEntry with
  | None => (false, s)
  | Some e => (true, mkMem (delete e.1 (noteTags s)) (noteTagIdCounter s))
  end.

(** The counter is above every key in use, and every link is stored under
    its own identifier. *)
Definition memOk (s : MemStorage) : Prop :=
  ∀ k nt, noteTags s !! k = Some nt → nt_id nt = k ∧ k < noteTagIdCounter s.

End MemStorage.

(** ** The storage-type switch of context/storage-context.tsx and
    hooks/use-storage.ts *)

Module Mode.

Inductive StorageType : Type := local | supabase | webdav.

Global Instance StorageType_eq_dec : EqDecision StorageType.
Proof. solve_decision. Defined.

Definition typeName (t : StorageType) : string :=
  match t with
  | local => "local"
  | supabase => "supabase"
  | webdav => "webdav"
  end.

Record WebDAVConfig : Type := mkConfig {
  url : string;
  username : option string;
  password : option string
}.

(** The state behind [StorageProvider]: its two React states, the two keys
    it keeps in [localStorage], and how often it has called
    [localDb.init()]. *)
Record Provider : Type := mkProvider {
  storageType : StorageType;
  webdavConfig : option WebDAVConfig;
  saved_type : option StorageType;
  saved_webdavConfig : option WebDAVConfig;
  localDb_inits : nat
}.

(** [setStorageType] of the provider; [init_ok] tells whether
    [localDb.init()] resolves (the message of its rejection is cut short). *)
Definition setStorageType (isAuthenticated init_ok : bool) (type : StorageType)
    (p : Provider) : result unit * Provider :=
  if bool_decide (type = supabase) && negb isAuthenticated
  then (Err "You must be logged in to use Supabase storage", p)
  else if bool_decide (type = webdav) && bool_decide (webdavConfig p = None)
  then (Err "WebDAV must be configured first", p)
  else
    let p := mkProvider type (webdavConfig p) (Some type) (saved_webdavConfig p)
                        (localDb_inits p) in
    if bool_decide (type = local) then
      let p := mkProvider (storageType p) (webdavConfig p) (saved_type p)
                          (saved_webdavConfig p) (S (localDb_inits p)) in
      if init_ok then (Ok (), p) else (Err "Failed to open IndexedDB", p)
    else (Ok (), p).

Record Toast : Type := mkToast {
  toast_title : string;
  description : string;
  destructive : bool
}.

(** [changeStorageType] of [useStorageHook], over the provider and the
    toasts shown so far. *)
Definition changeStorageType (isAuthenticated init_ok : bool) (type : StorageType)
    (h : Provider * list Toast) : result unit * (Provider * list Toast) :=
  let '(p, toasts) := h in
  let attempt : result unit * Provider :=
    if bool_decide (type = supabase) && negb isAuthenticated
    then (Err "You must be logged in to use Supabase storage", p)
    else if bool_decide (type = webdav) && bool_decide (webdavConfig p = None)
    then (Err "WebDAV must be configured first", p)
    else setStorageType isAuthenticated init_ok type p in
  match attempt with
  | (Ok tt, p) =>
      (Ok tt,
       (p, toasts ++ [mkToast "Storage updated"
                               ("Now using " +:+ typeName type +:+ " storage") false]))
  | (Err msg, p) =>
      (Err msg, (p, toasts ++ [mkToast "Storage change failed" msg true]))
  end.

(** *** The rest of the provider and of the hook *)

(** The provider when it mounts: both states are read from [localStorage],
    the storage type defaulting to ['local']. *)
Definition mount (savedType : option StorageType) (savedConfig : option WebDAVConfig)
    : Provider :=
  mkProvider (default local savedType) savedConfig savedType savedConfig 0.

Definition setWebdavConfig (config : option WebDAVConfig) (p : Provider) : Provider :=
  mkProvider (storageType p) config (saved_type p) config (localDb_inits p).



(** [configureWebdav] of the hook; [test_ok] tells whether [webdav.test]
    resolves, [msg] is the message of its error when it does not. *)
Definition configureWebdav (test_ok : bool) (msg : string) (config : WebDAVConfig)
    (h : Provider * list Toast) : bool * (Provider * list Toast) :=
  let '(p, toasts) := h in
  if test_ok then
    (true, (setWebdavConfig (Some config) p,
            toasts ++ [mkToast "WebDAV configured" "WebDAV connection successful" false]))
  else
    (false, (p, toasts ++ [mkToast "WebDAV configuration failed" msg true])).

(** The two React states agree with what [localStorage] holds. *)
Definition inStep (p : Provider) : Prop :=
  storageType p = default local (saved_type p)
  ∧ webdavConfig p = saved_webdavConfig p.

End Mode.


(** ** Sample data *)

Module Examples.
Import LocalStorage.

(** A note of identifier [k] last updated at [t]. *)
Definition sampleNote (k : Z) (title' : string) (t : Z) : Note :=
  mkStored k
    (mkNoteProps (Some title') (Some EmptyString) None None (Some false)
                 (Some Null) (Some "Inter") (Some "16px")
                 (Some (TimeMs 0)) (Some (TimeMs t))).

Definition local7 : Note := sampleNote 7 "local copy" 1000.
Definition remote7_newer : Note := sampleNote 7 "remote copy" 1001.
Definition draft : Note := sampleNote (-1) "remote draft" 1000.
Definition remote8 : Note := sampleNote 8 "remote only" 1000.


(** Folder 3 holds the notes 10 and 11; note 12 is in no folder and note 11
    carries tag 9. *)
Definition filedNote (k : Z) (folder : nullable Z) : NoteProps :=
  mkNoteProps (Some "note") (Some EmptyString) (Some folder) None (Some false)
              (Some Null) (Some "Inter") (Some "16px")
              (Some (TimeMs 0)) (Some (TimeMs k)).


(** The same folder in the database of db.ts. *)
Definition dbNote (folder : nullable Z) : Db.NoteProps :=
  Db.mkNoteProps (Some "note") (Some EmptyString) None None None None (Some false)
                 (Some folder) None (Some (TimeMs 0)) (Some (TimeMs 0)).

Definition dbFolder3 : Db.IndexedDBStorage :=
  Db.mkDb false {[3 := Db.mkFolderProps (Some "work") None]}
          (list_to_map [(10, dbNote (Val 3)); (11, dbNote (Val 3)); (12, dbNote Null)])
          ∅ ∅ (λ _, 1).

(** Note 5 linked to a tag 9 that does not exist. *)
Definition withNote5 : DB :=
  mkDB (mkStore {[5 := filedNote 5 Null]} 6) emptyStore emptyStore emptyStore ∅.

Definition dangling : DB :=
  mkDB (mkStore {[5 := filedNote 5 Null]} 6) emptyStore emptyStore
       (mkStore {[1 := mkNoteTagProps 5 9]} 2) ∅.




(** A Supabase API and a WebDAV server that hold note 8 and reject every
    write. *)
Definition readOnlyApi : Sync.SupabaseApi :=
  Sync.mkApi (Some [remote8]) (Some []) (Some []) (Some []) (λ _, false).

Definition readOnlyServer : Sync.WebDAVServer :=
  Sync.mkServer true (Some [remote8]) None None None (λ _, false).

(** A Supabase API whose first request fails and a WebDAV server that cannot
    be reached. *)
Definition downApi : Sync.SupabaseApi :=
  Sync.mkApi None (Some []) (Some []) (Some []) (λ _, true).

Definition downServer : Sync.WebDAVServer :=
  Sync.mkServer false (Some [remote8]) None None None (λ _, true).

Definition webdavOn : Sync.WebDAVConfig :=
  Sync.mkConfig "https://dav.example/remote.php" None None true.

(** The clock that reads [n] at its [n]-th reading. *)
Definition ticks (n : nat) : Date := TimeMs (Z.of_nat n).

End Examples.

(** ** More sample data *)

Module MoreExamples.
Import LocalStorage Examples.

(** Note 7 as a server sends it when its date cannot be read. *)
Definition remote7_undated : Note :=
  mkStored 7
    (mkNoteProps (Some "remote copy") (Some EmptyString) None None (Some false)
                 (Some Null) (Some "Inter") (Some "16px")
                 (Some (TimeMs 0)) (Some InvalidDate)).

Definition folderA : Folder :=
  mkStored 1 (mkFolderProps (Some "local name") None None (Some (TimeMs 0))).
Definition folderA_remote : Folder :=
  mkStored 1 (mkFolderProps (Some "remote name") None None (Some (TimeMs 5))).
Definition folderB : Folder :=
  mkStored 2 (mkFolderProps (Some "remote only") None None (Some (TimeMs 5))).

(** A new title for note 5, and the same for a note 8 that the store does
    not hold. *)
Definition newTitle : NoteProps :=
  mkNoteProps (Some "new title") None None None None None None None None None.
Definition retitle8 : Input NoteProps := mkInput (Some 8) newTitle.

(** What [readOnlyApi] answers to the four requests of a full pass. *)
Definition note8Only : Data := mkData (Some [remote8]) (Some []) (Some []) (Some []).

End MoreExamples.


(** * Properties *)


Lemma fmap_fixed {A} (f : A → A) (l : list A) :
  (∀ x, x ∈ l → f x = x) → f <$> l = l.
Proof.
  induction l as [|x l IH]; intros H; simpl; [done|].
  rewrite H by (by apply elem_of_cons; left). f_equal.
  apply IH. intros y Hy. apply H. by apply elem_of_cons; right.
Qed.

(** ** The Reconciler *)

Module ReconcilerFacts.
Section MergeFacts.
Context {T : Type} (id : T → Z) (updatedAt : T → option Date).

Local Abbreviation positiveItemMap := (Reconciler.positiveItemMap id).
Local Abbreviation allItemMap := (Reconciler.allItemMap id).
Local Abbreviation pickLocal := (Reconciler.pickLocal id updatedAt).
Local Abbreviation remoteOnly := (Reconciler.remoteOnly id).
Local Abbreviation mergeLoops := (Reconciler.mergeLoops id updatedAt).
Local Abbreviation mergeData := (Reconciler.mergeData id updatedAt).
Local Abbreviation downloadAndMerge := (Reconciler.downloadAndMerge id updatedAt).

(** The two loops are a map over the local items followed by a filter of the
    remote ones. *)
Lemma mergeLoops_eq lm rm localItems remoteItems :
  mergeLoops lm rm localItems remoteItems
  = (pickLocal rm <$> localItems) ++ List.filter (remoteOnly lm) remoteItems.
Proof.
  unfold Reconciler.mergeLoops.
  assert (∀ l acc, foldl (λ merged x, merged ++ [pickLocal rm x]) acc l
                   = acc ++ (pickLocal rm <$> l)) as H1.
  { induction l as [|x l IH]; intros acc; simpl.
    - by rewrite app_nil_r.
    - rewrite IH. by rewrite <- app_assoc. }
  assert (∀ l acc,
            foldl (λ merged x, if remoteOnly lm x then merged ++ [x] else merged) acc l
            = acc ++ List.filter (remoteOnly lm) l) as H2.
  { induction l as [|x l IH]; intros acc; simpl.
    - by rewrite app_nil_r.
    - rewrite IH. destruct (remoteOnly lm x); [by rewrite <- app_assoc | done]. }
  rewrite H1, H2. done.
Qed.

Lemma positiveItemMap_acc items (m0 : gmap Z T) k x :
  foldl (λ m item, if bool_decide (0 < id item) then <[id item := item]> m else m)
        m0 items !! k = Some x →
  (x ∈ items ∧ id x = k ∧ 0 < k) ∨ m0 !! k = Some x.
Proof.
  revert m0. induction items as [|y items IH]; intros m0 H; simpl in *.
  - by right.
  - apply IH in H as [(Hin & Hid & Hpos)|H].
    + left. split; [by apply elem_of_cons; right | done].
    + case_bool_decide as Hy; [|by right].
      destruct (decide (id y = k)) as [<-|Hne].
      * rewrite lookup_insert_eq in H. injection H as <-.
        left. split; [by apply elem_of_cons; left | done].
      * rewrite lookup_insert_ne in H by done. by right.
Qed.

Lemma positiveItemMap_Some items k x :
  positiveItemMap items !! k = Some x → x ∈ items ∧ id x = k ∧ 0 < k.
Proof.
  intros H. apply positiveItemMap_acc in H as [H|H]; [done|].
  by rewrite lookup_empty in H.
Qed.

Lemma positiveItemMap_acc_is_Some items (m0 : gmap Z T) k :
  is_Some (m0 !! k) ∨ (∃ x, x ∈ items ∧ id x = k ∧ 0 < k) →
  is_Some (foldl (λ m item,
                    if bool_decide (0 < id item) then <[id item := item]> m else m)
                 m0 items !! k).
Proof.
  revert m0. induction items as [|y items IH]; intros m0 H; simpl.
  - destruct H as [H|(x & Hx & _)]; [done|]. by apply elem_of_nil in Hx.
  - apply IH. destruct H as [H|(x & Hx & Hid & Hpos)].
    + left. case_bool_decide; [|done].
      destruct (decide (id y = k)) as [<-|Hne].
      * rewrite lookup_insert_eq. by eexists.
      * by rewrite lookup_insert_ne.
    + apply elem_of_cons in Hx as [->|Hx].
      * left. rewrite bool_decide_eq_true_2 by lia.
        rewrite Hid, lookup_insert_eq. by eexists.
      * right. by exists x.
Qed.

Lemma positiveItemMap_is_Some items x :
  x ∈ items → 0 < id x → is_Some (positiveItemMap items !! id x).
Proof.
  intros Hx Hpos. apply positiveItemMap_acc_is_Some. right. by exists x.
Qed.

Lemma allItemMap_acc_is_Some items (m0 : gmap Z T) k :
  is_Some (m0 !! k) ∨ (∃ x, x ∈ items ∧ id x = k) →
  is_Some (foldl (λ m item, <[id item := item]> m) m0 items !! k).
Proof.
  revert m0. induction items as [|y items IH]; intros m0 H; simpl.
  - destruct H as [H|(x & Hx & _)]; [done|]. by apply elem_of_nil in Hx.
  - apply IH. destruct H as [H|(x & Hx & Hid)].
    + left. destruct (decide (id y = k)) as [<-|Hne].
      * rewrite lookup_insert_eq. by eexists.
      * by rewrite lookup_insert_ne.
    + apply elem_of_cons in Hx as [->|Hx].
      * left. rewrite Hid, lookup_insert_eq. by eexists.
      * right. by exists x.
Qed.

Lemma allItemMap_acc_None items (m0 : gmap Z T) k :
  m0 !! k = None → (∀ x, x ∈ items → id x ≠ k) →
  foldl (λ m item, <[id item := item]> m) m0 items !! k = None.
Proof.
  revert m0. induction items as [|y items IH]; intros m0 H0 H; simpl; [done|].
  apply IH.
  - rewrite lookup_insert_ne; [done|]. apply H. by apply elem_of_cons; left.
  - intros x Hx. apply H. by apply elem_of_cons; right.
Qed.

Lemma positiveItemMap_acc_None items (m0 : gmap Z T) k :
  m0 !! k = None → (∀ x, x ∈ items → 0 < id x → id x ≠ k) →
  foldl (λ m item, if bool_decide (0 < id item) then <[id item := item]> m else m)
        m0 items !! k = None.
Proof.
  revert m0. induction items as [|y items IH]; intros m0 H0 H; simpl; [done|].
  apply IH.
  - case_bool_decide; [|done].
    rewrite lookup_insert_ne; [done|]. apply H; [by apply elem_of_cons; left|done].
  - intros x Hx. apply H. by apply elem_of_cons; right.
Qed.

(** For a positive identifier both local maps answer [has] alike: the
    unconditional map of [downloadAndMerge] only adds non-positive keys. *)
Lemma remoteOnly_maps localItems r :
  remoteOnly (allItemMap localItems) r = remoteOnly (positiveItemMap localItems) r.
Proof.
  unfold Reconciler.remoteOnly. case_bool_decide as Hpos; simpl; [|done].
  apply bool_decide_ext. split; intros HN.
  - apply positiveItemMap_acc_None; [apply lookup_empty|].
    intros x Hx _ Heq.
    destruct (allItemMap_acc_is_Some localItems ∅ (id r)) as [y Hy];
      [right; by exists x|].
    unfold Reconciler.allItemMap in HN. congruence.
  - apply allItemMap_acc_None; [apply lookup_empty|].
    intros x Hx Heq.
    assert (0 < id x) as Hx0 by lia.
    destruct (positiveItemMap_is_Some localItems x Hx Hx0) as [y Hy].
    rewrite Heq in Hy. congruence.
Qed.

(** A remote item passes the last filter exactly when its identifier is
    positive and no local item has it. *)
Lemma remoteOnly_true localItems r :
  remoteOnly (positiveItemMap localItems) r = true
  ↔ 0 < id r ∧ ∀ l, l ∈ localItems → id l ≠ id r.
Proof.
  unfold Reconciler.remoteOnly. rewrite andb_true_iff, !bool_decide_eq_true.
  split.
  - intros [Hpos HN]. split; [done|]. intros l Hl Heq.
    assert (0 < id l) as Hl0 by lia.
    destruct (positiveItemMap_is_Some localItems l Hl Hl0) as [y Hy].
    rewrite Heq in Hy. congruence.
  - intros [Hpos Hne]. split; [done|].
    apply positiveItemMap_acc_None; [apply lookup_empty|]. intros x Hx _. by apply Hne.
Qed.

(** Both merges as one expression. *)
Lemma merge_unfold localItems remoteItems :
  downloadAndMerge (Some remoteItems) localItems
  = (pickLocal (positiveItemMap remoteItems) <$> localItems)
    ++ List.filter (remoteOnly (positiveItemMap localItems)) remoteItems.
Proof.
  unfold Reconciler.downloadAndMerge. rewrite mergeLoops_eq. f_equal.
  apply filter_ext. intros r. apply remoteOnly_maps.
Qed.

Lemma pickLocal_empty l : pickLocal ∅ l = l.
Proof.
  unfold Reconciler.pickLocal. case_bool_decide; [|done]. by rewrite lookup_empty.
Qed.

(** [mergeData] and [downloadAndMerge] compute the same list, also when the
    remote list is empty. *)
Lemma mergeData_downloadAndMerge localItems remoteItems :
  mergeData localItems remoteItems = downloadAndMerge (Some remoteItems) localItems.
Proof.
  rewrite merge_unfold. unfold Reconciler.mergeData.
  destruct remoteItems as [|r remoteItems].
  - simpl. rewrite app_nil_r. unfold Reconciler.positiveItemMap. simpl.
    induction localItems as [|l ls IH]; [done|]. simpl.
    rewrite pickLocal_empty. by f_equal.
  - by rewrite mergeLoops_eq.
Qed.



(** Every merged record is a local record or a remote record with a positive
    identifier. *)
Lemma merge_elem_of localItems remoteItems x :
  x ∈ downloadAndMerge (Some remoteItems) localItems →
  x ∈ localItems ∨ (x ∈ remoteItems ∧ 0 < id x).
Proof.
  rewrite merge_unfold. intros [Hx|Hx]%elem_of_app.
  - apply list_elem_of_fmap in Hx as (l & -> & Hl).
    unfold Reconciler.pickLocal.
    case_bool_decide as Hpos; [|by left].
    destruct (positiveItemMap remoteItems !! id l) as [r|] eqn:Hr; [|by left].
    apply positiveItemMap_Some in Hr as (Hr & Hid & _).
    destruct (updatedAt l) as [dl|]; [|by left].
    destruct (updatedAt r) as [dr|]; [|by left].
    destruct (date_gt dl dr); [by left|]. right. split; [done|lia].
  - apply list_elem_of_In, filter_In in Hx as [Hx Hkeep].
    apply list_elem_of_In in Hx.
    apply remoteOnly_true in Hkeep as [Hpos _]. by right.
Qed.

(** Where a merged record comes from: it is the local record at the same
    position, or a remote record with a positive identifier. *)
Lemma merge_lookup_origin localItems remoteItems (i : nat) x :
  downloadAndMerge (Some remoteItems) localItems !! i = Some x →
  localItems !! i = Some x ∨ (x ∈ remoteItems ∧ 0 < id x).
Proof.
  rewrite merge_unfold. intros [Hx|[_ Hx]]%lookup_app_Some.
  - rewrite list_lookup_fmap in Hx.
    destruct (localItems !! i) as [l|] eqn:Hl; [|done]. simpl in Hx.
    injection Hx as <-. unfold Reconciler.pickLocal.
    case_bool_decide as Hpos; [|by left].
    destruct (positiveItemMap remoteItems !! id l) as [r|] eqn:Hr; [|by left].
    apply positiveItemMap_Some in Hr as (Hr & Hid & _).
    destruct (updatedAt l) as [dl|]; [|by left].
    destruct (updatedAt r) as [dr|]; [|by left].
    destruct (date_gt dl dr); [by left|]. right. split; [done|lia].
  - apply list_elem_of_lookup_2, list_elem_of_In, filter_In in Hx as [Hx Hkeep].
    apply list_elem_of_In in Hx.
    apply remoteOnly_true in Hkeep as [Hpos _]. by right.
Qed.

(** C10.  A record whose identifier is zero or negative occurs in the merged
    list only as the local record of the same position: no record taken from
    the remote list has a non-positive identifier.  So a remote record with a
    non-positive identifier that is not also a local record does not occur in
    the merged list.  This holds for [mergeData] and for
    [downloadAndMerge]. *)
Theorem merge_discards_nonpositive_remote (localItems remoteItems : list T) (x : T) :
  id x ≤ 0 →
  (∀ i : nat, mergeData localItems remoteItems !! i = Some x →
              localItems !! i = Some x)
  ∧ (∀ i : nat, downloadAndMerge (Some remoteItems) localItems !! i = Some x →
                localItems !! i = Some x)
  ∧ (x ∉ localItems →
     (x ∉ mergeData localItems remoteItems)
     ∧ (x ∉ downloadAndMerge (Some remoteItems) localItems)).
Proof.
  intros Hid. rewrite mergeData_downloadAndMerge.
  assert (∀ i : nat, downloadAndMerge (Some remoteItems) localItems !! i = Some x →
                     localItems !! i = Some x) as Hpos.
  { intros i [Hx|[_ Hx]]%merge_lookup_origin; [done|lia]. }
  split; [done|]. split; [done|]. intros Hloc.
  assert (x ∉ downloadAndMerge (Some remoteItems) localItems) as H; [|done].
  intros [Hx|[_ Hx]]%merge_elem_of; [done|lia].
Qed.


(** Every local record is kept, under its identifier. *)
Lemma pickLocal_id rm l :
  (∀ k r, rm !! k = Some r → id r = k) → id (pickLocal rm l) = id l.
Proof.
  intros Hrm. unfold Reconciler.pickLocal.
  case_bool_decide; [|done].
  destruct (rm !! id l) as [r|] eqn:Hr; [|done].
  destruct (updatedAt l); [|done]. destruct (updatedAt r); [|done].
  destruct (date_gt _ _); [done|]. by apply Hrm.
Qed.

Lemma merge_keeps_local_ids localItems remoteItems l :
  l ∈ localItems →
  ∃ x, x ∈ downloadAndMerge (Some remoteItems) localItems ∧ id x = id l.
Proof.
  intros Hl. exists (pickLocal (positiveItemMap remoteItems) l). split.
  - rewrite merge_unfold. apply elem_of_app. left. by apply list_elem_of_fmap_2.
  - apply pickLocal_id. intros k r Hr. by apply positiveItemMap_Some in Hr as (_ & ? & _).
Qed.


End MergeFacts.
End ReconcilerFacts.

(** *** The merge on sample notes *)

Module ReconcilerExamples.
Import LocalStorage Sync Examples.

Local Abbreviation mergeNotes := (Reconciler.mergeData id note_updatedAt).
Local Abbreviation downloadAndMergeNotes :=
  (Reconciler.downloadAndMerge id note_updatedAt).





Lemma merge_discards_nonpositive_remote_witness :
  (∀ i : nat, mergeNotes [local7] [draft; remote8] !! i = Some draft →
              [local7] !! i = Some draft)
  ∧ (∀ i : nat, downloadAndMergeNotes (Some [draft; remote8]) [local7] !! i = Some draft →
                [local7] !! i = Some draft)
  ∧ (draft ∉ [local7] →
     (draft ∉ mergeNotes [local7] [draft; remote8])
     ∧ (draft ∉ downloadAndMergeNotes (Some [draft; remote8]) [local7])).
Proof.
  apply (ReconcilerFacts.merge_discards_nonpositive_remote
           id note_updatedAt [local7] [draft; remote8] draft).
  vm_compute. discriminate.
Defined.

(** The remote draft is dropped and the remote note 8 is appended. *)
Lemma merge_drops_draft_appends_note :
  mergeNotes [local7] [draft; remote8] = [local7; remote8]
  ∧ downloadAndMergeNotes (Some [draft; remote8]) [local7] = [local7; remote8].
Proof. split; by vm_compute. Qed.

End ReconcilerExamples.

(** ** The storage-type switch *)

Module ModeFacts.
Import Mode.

(** C5.  Asking for the Supabase storage while not authenticated fails with
    the error "You must be logged in to use Supabase storage" and leaves the
    provider as it was: its storage type, its WebDAV configuration, both
    [localStorage] keys and the number of [localDb.init()] calls.  This holds
    for [setStorageType] of the provider and for [changeStorageType] of the
    hook, which in addition reports the failure in a toast. *)
Theorem supabase_requires_authentication
    (init_ok : bool) (p : Provider) (toasts : list Toast) :
  setStorageType false init_ok supabase p
  = (Err "You must be logged in to use Supabase storage", p)
  ∧ changeStorageType false init_ok supabase (p, toasts)
    = (Err "You must be logged in to use Supabase storage",
       (p, toasts ++ [mkToast "Storage change failed"
                              "You must be logged in to use Supabase storage" true]))
  ∧ storageType (setStorageType false init_ok supabase p).2 = storageType p
  ∧ storageType (changeStorageType false init_ok supabase (p, toasts)).2.1
    = storageType p.
Proof. repeat split. Qed.

(** When authenticated the same request goes through: the guard is the only
    thing that stops it. *)
Lemma supabase_when_authenticated (init_ok : bool) (p : Provider) :
  (setStorageType true init_ok supabase p).1 = Ok ()
  ∧ storageType (setStorageType true init_ok supabase p).2 = supabase
  ∧ saved_type (setStorageType true init_ok supabase p).2 = Some supabase.
Proof. repeat split. Qed.

End ModeFacts.

(** ** Rows of a store *)

Lemma elem_of_rowsInKeyOrder {P} (m : gmap Z P) (x : Stored P) :
  x ∈ rowsInKeyOrder m ↔ m !! id x = Some (props x).
Proof.
  unfold rowsInKeyOrder. rewrite list_elem_of_fmap. split.
  - intros ([k p] & -> & Hin). simpl.
    rewrite merge_sort_Permutation in Hin. by apply elem_of_map_to_list.
  - intros Hx. exists (id x, props x). split; [by destruct x|].
    rewrite merge_sort_Permutation. by apply elem_of_map_to_list.
Qed.

Lemma rowsInKeyOrder_sorted {P} (m : gmap Z P) :
  StronglySorted Z.le (id <$> rowsInKeyOrder m).
Proof.
  unfold rowsInKeyOrder. rewrite <- list_fmap_compose.
  assert (Transitive (@key_le P)) as Htrans.
  { intros a b c. unfold key_le. lia. }
  assert (Total (@key_le P)) as Htotal.
  { intros a b. unfold key_le. lia. }
  apply (StronglySorted_fmap _ (@key_le P) Z.le).
  - intros a b Hab. exact Hab.
  - by apply StronglySorted_merge_sort.
Qed.

Lemma rowsInKeyOrder_nil {P} (m : gmap Z P) :
  rowsInKeyOrder m = [] ↔ m = ∅.
Proof.
  split.
  - intros H. apply map_empty. intros k.
    destruct (m !! k) as [p|] eqn:Hk; [|done].
    assert (mkStored k p ∈ rowsInKeyOrder m) as Hin
      by (by apply elem_of_rowsInKeyOrder).
    rewrite H in Hin. by apply elem_of_nil in Hin.
  - intros ->. unfold rowsInKeyOrder. by rewrite map_to_list_empty.
Qed.

Lemma uniquePairs_insert {V K} (pair : V → K) (m : gmap Z V) k v :
  uniquePairs pair m →
  (∀ k' a, m !! k' = Some a → pair a ≠ pair v) →
  uniquePairs pair (<[k := v]> m).
Proof.
  intros Hu Hfresh k1 k2 a b H1 H2 Heq.
  destruct (decide (k1 = k)) as [->|N1], (decide (k2 = k)) as [->|N2]; [done|..].
  - rewrite lookup_insert_eq in H1. rewrite lookup_insert_ne in H2 by done.
    injection H1 as <-. by destruct (Hfresh k2 b H2).
  - rewrite lookup_insert_eq in H2. rewrite lookup_insert_ne in H1 by done.
    injection H2 as <-. by destruct (Hfresh k1 a H1).
  - rewrite lookup_insert_ne in H1, H2 by done. by eapply Hu.
Qed.

(** ** The class [IndexedDBStorage] *)

Module DbFacts.
Import Db.




Lemma items_set_counter s s' v d : items s (set_counter s' v d) = items s d.
Proof. by destruct s. Qed.

Lemma items_set_connected s b d : items s (set_connected b d) = items s d.
Proof. by destruct s. Qed.





Lemma items_loadCounter s s' d : items s (loadCounter d s') = items s d.
Proof.
  unfold loadCounter. destruct (storeIds s' d); [done|]. apply items_set_counter.
Qed.

Lemma connected_loadCounter s d : connected (loadCounter d s) = connected d.
Proof. unfold loadCounter. by destruct (storeIds s d). Qed.

(** The counters after the loop has visited the stores [ss]. *)
Lemma load_fold ss d s :
  (∀ s', items s' (foldl loadCounter d ss) = items s' d)
  ∧ connected (foldl loadCounter d ss) = connected d
  ∧ idCounters (foldl loadCounter d ss) s
    = if bool_decide (s ∈ ss)
      then match storeIds s d with
           | [] => idCounters d s
           | i :: ids => Math_max i ids + 1
           end
      else idCounters d s.
Proof.
  revert d. induction ss as [|s0 ss IH]; intros d; simpl.
  - done.
  - destruct (IH (loadCounter d s0)) as (Hitems & Hconn & Hcount).
    split; [|split].
    + intros s'. by rewrite Hitems, items_loadCounter.
    + by rewrite Hconn, connected_loadCounter.
    + rewrite Hcount.
      assert (storeIds s (loadCounter d s0) = storeIds s d) as ->.
      { unfold storeIds. by rewrite items_loadCounter. }
      assert (idCounters (loadCounter d s0) s
              = if decide (s = s0)
                then match storeIds s d with
                     | [] => idCounters d s
                     | i :: ids => Math_max i ids + 1
                     end
                else idCounters d s) as Hstep.
      { unfold loadCounter. destruct (decide (s = s0)) as [->|Hne].
        - destruct (storeIds s0 d); [done|]. simpl. by rewrite decide_True.
        - destruct (storeIds s0 d); [done|]. simpl. by rewrite decide_False. }
      rewrite Hstep.
      destruct (decide (s = s0)) as [->|Hne].
      * rewrite (bool_decide_eq_true_2 (s0 ∈ s0 :: ss)) by (apply elem_of_cons; by left).
        case_bool_decide; [|done]. by destruct (storeIds s0 d).
      * destruct (decide (s ∈ ss)) as [Hin|Hnin].
        -- rewrite !bool_decide_eq_true_2; [done| |done]. apply elem_of_cons. by right.
        -- rewrite !bool_decide_eq_false_2; [done| |done].
           intros [?|?]%elem_of_cons; done.
Qed.

Lemma loadIdCounters_counter d s :
  idCounters (loadIdCounters d) s
  = match storeIds s d with
    | [] => idCounters d s
    | i :: ids => Math_max i ids + 1
    end.
Proof.
  unfold loadIdCounters. destruct (load_fold STORES d s) as (_ & _ & ->).
  rewrite bool_decide_eq_true_2; [done|]. unfold STORES. destruct s; set_solver.
Qed.

Lemma items_loadIdCounters s d : items s (loadIdCounters d) = items s d.
Proof. unfold loadIdCounters. by destruct (load_fold STORES d s) as (-> & _). Qed.

Lemma items_init s d : items s (init d) = items s d.
Proof.
  unfold init. destruct (connected d); [done|].
  by rewrite items_loadIdCounters, items_set_connected.
Qed.

Lemma connected_init d : connected (init d) = true.
Proof.
  unfold init. destruct (connected d) eqn:Hc; [done|].
  unfold loadIdCounters. by destruct (load_fold STORES (set_connected true d) stNotes) as (_ & -> & _).
Qed.

Lemma init_init d : init (init d) = init d.
Proof. unfold init at 1. by rewrite connected_init. Qed.

(** On an instance that is already in use, [loadIdCounters] leaves the
    counter of an empty store where it is. *)
Lemma loadIdCounters_empty_store d s :
  storeIds s d = [] → idCounters (loadIdCounters d) s = idCounters d s.
Proof. intros H. by rewrite loadIdCounters_counter, H. Qed.




(** [put] succeeds when no other row clashes with the new one. *)
Lemma put_ok s (x : Stored (propsOf s)) d :
  (∀ k p, items s d !! k = Some p → k ≠ id x → clash s p (props x) = false) →
  put s x d = Some (set_items s (<[id x := props x]> (items s d)) d).
Proof.
  intros Hfree. unfold put. rewrite bool_decide_eq_false_2; [done|].
  intros (k & p & Hk & Hne & Hc). by rewrite (Hfree k p Hk Hne) in Hc.
Qed.

(** What [addItem] does with the identifier of the record it is given. *)
Lemma addItem_spec s (item : Input (propsOf s)) d :
  (∀ k p, items s d !! k = Some p → clash s p (fields item) = false) →
  ((id_opt item = None ∨ id_opt item = Some 0) →
     addItem s item d
     = (Some (mkStored (idCounters d s) (fields item)),
        set_items s (<[idCounters d s := fields item]> (items s d))
                  (set_counter s (idCounters d s + 1) d)))
  ∧ (∀ i, id_opt item = Some i → i ≠ 0 →
     addItem s item d
     = (Some (mkStored i (fields item)),
        set_items s (<[i := fields item]> (items s d)) d)).
Proof.
  intros Hfree. split.
  - intros Hid. unfold addItem.
    assert (match id_opt item with
            | Some i => if decide (i = 0) then getNextId s d else (i, d)
            | None => getNextId s d
            end = getNextId s d) as ->.
    { destruct Hid as [->| ->]; [done|]. by rewrite decide_True. }
    unfold getNextId. rewrite put_ok.
    + simpl. by rewrite items_set_counter.
    + simpl. intros k p Hk _. rewrite items_set_counter in Hk. by eapply Hfree.
  - intros i Hid Hne. unfold addItem. rewrite Hid, decide_False by done.
    rewrite put_ok; [done|]. simpl. intros k p Hk _. by eapply Hfree.
Qed.

End DbFacts.

(** ** The local store of utils/storage.ts *)

Module LocalStorageFacts.
Import LocalStorage.

Lemma put_storeOk {P} (v : Input P) (s : ObjectStore P) :
  storeOk s → storeOk (put v s).2.
Proof.
  intros [H1 Hk]. unfold put, storeOk. destruct (id_opt v) as [k|]; simpl.
  - split; [case_bool_decide; lia|]. intros k' Hk'.
    destruct (decide (k = k')) as [<-|Hne].
    + case_bool_decide; lia.
    + rewrite lookup_insert_ne in Hk' by done. apply Hk in Hk'.
      case_bool_decide; lia.
  - split; [lia|]. intros k' Hk'.
    destruct (decide (keygen s = k')) as [<-|Hne]; [lia|].
    rewrite lookup_insert_ne in Hk' by done. apply Hk in Hk'. lia.
Qed.



End LocalStorageFacts.

(** ** Writing a record: which identifier it gets *)

Module PutFacts.




End PutFacts.

(** ** Links between notes and tags *)

Module LinkFacts.

(** [addTagToNote] of db.ts. *)
Lemma noteTags_init (d : Db.IndexedDBStorage) :
  Db.noteTags (Db.init d) = Db.noteTags d.
Proof. exact (DbFacts.items_init Db.stNoteTags d). Qed.

Lemma db_find_none noteId' tagId' (d : Db.IndexedDBStorage) :
  Db.existingRelation noteId' tagId' d = None →
  ∀ k p, Db.noteTags d !! k = Some p → Db.linkOf p ≠ (noteId', tagId').
Proof.
  intros Hfind k p Hk Heq.
  assert (mkStored k p ∈ Db.getAllItems Db.stNoteTags d) as Hin
    by (by apply elem_of_rowsInKeyOrder).
  apply list_elem_of_In in Hin.
  pose proof (List.find_none _ _ Hfind _ Hin) as Hf. simpl in Hf.
  unfold Db.linkOf in Heq. injection Heq as H1 H2.
  by rewrite !bool_decide_eq_true_2 in Hf.
Qed.

Lemma db_addTagToNote_None noteId' tagId' (d : Db.IndexedDBStorage) :
  Db.existingRelation noteId' tagId' (Db.init d) = None →
  Db.addTagToNote noteId' tagId' d
  = (Ok (),
     Db.set_items Db.stNoteTags
       (<[Db.idCounters (Db.init d) Db.stNoteTags := Db.mkNoteTagProps noteId' tagId']>
          (Db.noteTags d))
       (Db.set_counter Db.stNoteTags
          (Db.idCounters (Db.init d) Db.stNoteTags + 1) (Db.init d))).
Proof.
  intros Hfind. unfold Db.addTagToNote. cbv zeta. rewrite Hfind.
  pose proof (db_find_none _ _ _ Hfind) as Hfresh.
  destruct (DbFacts.addItem_spec Db.stNoteTags
              (mkInput (Some 0) (Db.mkNoteTagProps noteId' tagId')) (Db.init d))
    as [Hnew _].
  { intros k p Hk. simpl. apply bool_decide_eq_false_2. intros [H1 H2].
    apply (Hfresh k p Hk). unfold Db.linkOf. by rewrite H1, H2. }
  rewrite Hnew by (by right). simpl.
  by rewrite noteTags_init.
Qed.

Lemma db_addTagToNote_unique noteId' tagId' (d : Db.IndexedDBStorage) :
  uniquePairs Db.linkOf (Db.noteTags d) →
  uniquePairs Db.linkOf (Db.noteTags (Db.addTagToNote noteId' tagId' d).2).
Proof.
  intros Hu.
  destruct (Db.existingRelation noteId' tagId' (Db.init d)) eqn:Hfind.
  - unfold Db.addTagToNote. cbv zeta. rewrite Hfind. simpl.
    by rewrite noteTags_init.
  - rewrite (db_addTagToNote_None _ _ _ Hfind). simpl.
    apply uniquePairs_insert; [done|].
    intros k p Hk. apply (db_find_none _ _ _ Hfind k).
    by rewrite noteTags_init.
Qed.

(** The request never fails on the unique index, and the link is there
    afterwards. *)
Lemma db_addTagToNote_links noteId' tagId' (d : Db.IndexedDBStorage) :
  (Db.addTagToNote noteId' tagId' d).1 = Ok ()
  ∧ ∃ k, Db.noteTags (Db.addTagToNote noteId' tagId' d).2 !! k
         = Some (Db.mkNoteTagProps noteId' tagId').
Proof.
  destruct (Db.existingRelation noteId' tagId' (Db.init d)) as [nt|] eqn:Hfind.
  - unfold Db.addTagToNote. cbv zeta. rewrite Hfind. simpl. split; [done|].
    apply List.find_some in Hfind as [Hin Hp].
    apply list_elem_of_In, elem_of_rowsInKeyOrder in Hin.
    apply andb_true_iff in Hp as [H1%bool_decide_eq_true H2%bool_decide_eq_true].
    exists (id nt).
    change (Db.items Db.stNoteTags (Db.init d)) with (Db.noteTags (Db.init d)) in Hin.
    rewrite Hin. f_equal. destruct (props nt). simpl in *. by subst.
  - rewrite (db_addTagToNote_None _ _ _ Hfind). simpl. split; [done|].
    eexists. apply lookup_insert_eq.
Qed.

(** [addTagToNote] of utils/storage.ts. *)
Lemma existsb_filter_false {A} (f g : A → bool) (l : list A) :
  existsb f (List.filter g l) = false → ∀ x, x ∈ l → g x = true → f x = false.
Proof.
  intros H x Hx Hg. apply not_true_iff_false. intros Hf.
  apply not_true_iff_false in H. apply H. apply existsb_exists. exists x.
  split; [|done]. apply filter_In. split; [by apply list_elem_of_In|done].
Qed.

Lemma local_addTagToNote_unique noteId' tagId' (d : LocalStorage.DB) :
  uniquePairs LocalStorage.linkOf (LocalStorage.rows (LocalStorage.noteTags d)) →
  uniquePairs LocalStorage.linkOf
    (LocalStorage.rows
       (LocalStorage.noteTags (LocalStorage.addTagToNote noteId' tagId' d).2)).
Proof.
  intros Hu. unfold LocalStorage.addTagToNote.
  destruct (existsb _ _) eqn:Hex; [done|]. simpl.
  apply uniquePairs_insert; [done|].
  intros k p Hk Heq. unfold LocalStorage.linkOf in Heq. injection Heq as H1 H2.
  assert (mkStored k p ∈ LocalStorage.getAll (LocalStorage.noteTags d)) as Hin
    by (by apply elem_of_rowsInKeyOrder).
  pose proof (existsb_filter_false _ _ _ Hex _ Hin) as Hf. simpl in Hf.
  rewrite !bool_decide_eq_true_2 in Hf by done. by specialize (Hf eq_refl).
Qed.

(** [addTagToNote] of server/storage.ts. *)
Lemma mem_addTagToNote_unique noteId' tagId' (s : MemStorage.MemStorage) :
  uniquePairs MemStorage.linkOf (MemStorage.noteTags s) →
  uniquePairs MemStorage.linkOf
    (MemStorage.noteTags (MemStorage.addTagToNote noteId' tagId' s).2).
Proof.
  intros Hu. unfold MemStorage.addTagToNote.
  destruct (List.find _ _) eqn:Hfind; [done|]. simpl.
  apply uniquePairs_insert; [done|].
  intros k nt Hk Heq. unfold MemStorage.linkOf in Heq. injection Heq as H1 H2.
  assert (nt ∈ MemStorage.values (MemStorage.noteTags s)) as Hin.
  { unfold MemStorage.values. apply list_elem_of_fmap. exists (k, nt).
    split; [done|]. by apply elem_of_map_to_list. }
  apply list_elem_of_In in Hin.
  pose proof (List.find_none _ _ Hfind _ Hin) as Hf. simpl in Hf.
  by rewrite !bool_decide_eq_true_2 in Hf.
Qed.

(** C9.  In each of the three stores, when no two links carry the same pair
    (note reference, tag reference), the same is true after
    [addTagToNote noteId tagId], for every [noteId] and [tagId], whether or
    not the pair was already linked. *)
Theorem addTagToNote_keeps_links_unique (noteId' tagId' : Z)
    (d : Db.IndexedDBStorage) (db : LocalStorage.DB) (s : MemStorage.MemStorage) :
  uniquePairs Db.linkOf (Db.noteTags d) →
  uniquePairs LocalStorage.linkOf (LocalStorage.rows (LocalStorage.noteTags db)) →
  uniquePairs MemStorage.linkOf (MemStorage.noteTags s) →
  uniquePairs Db.linkOf (Db.noteTags (Db.addTagToNote noteId' tagId' d).2)
  ∧ uniquePairs LocalStorage.linkOf
      (LocalStorage.rows
         (LocalStorage.noteTags (LocalStorage.addTagToNote noteId' tagId' db).2))
  ∧ uniquePairs MemStorage.linkOf
      (MemStorage.noteTags (MemStorage.addTagToNote noteId' tagId' s).2).
Proof.
  intros H1 H2 H3. split; [|split].
  - by apply db_addTagToNote_unique.
  - by apply local_addTagToNote_unique.
  - by apply mem_addTagToNote_unique.
Qed.

End LinkFacts.

(** ** Deleting a folder *)

Module FolderFacts.

(** *** db.ts *)









(** *** utils/storage.ts *)







End FolderFacts.

Module FolderExamples.
Import Examples.


(** Through db.ts the two notes stay, in no folder. *)
Lemma db_deleteFolder_keeps_notes :
  Db.folderId <$> (Db.notes (Db.deleteFolder ticks 3 dbFolder3).2 !! 10)
  = Some (Some Null)
  ∧ Db.folderId <$> (Db.notes (Db.deleteFolder ticks 3 dbFolder3).2 !! 11)
    = Some (Some Null)
  ∧ Db.notes (Db.deleteFolder ticks 3 dbFolder3).2 !! 12 = Some (dbNote Null)
  ∧ Db.folders (Db.deleteFolder ticks 3 dbFolder3).2 = ∅.
Proof. repeat split; by vm_compute. Qed.

End FolderExamples.

(** ** The sync passes *)

Module SyncFacts.
Import LocalStorage Sync.

Section Ids.
Context {T : Type} (id : T → Z) (updatedAt : T → option Date).

Local Abbreviation mergeData := (Reconciler.mergeData id updatedAt).
Local Abbreviation downloadAndMerge := (Reconciler.downloadAndMerge id updatedAt).

(** A missing remote file merges like an empty one. *)
Lemma downloadAndMerge_default (remoteItems : option (list T)) localItems :
  downloadAndMerge remoteItems localItems
  = mergeData localItems (default [] remoteItems).
Proof.
  destruct remoteItems as [remoteItems|]; simpl; [|done].
  symmetry. apply ReconcilerFacts.mergeData_downloadAndMerge.
Qed.


(** The identifier of every local record is in the merge. *)
Lemma mergeData_ids_local localItems remoteItems k :
  k ∈ id <$> localItems → k ∈ id <$> mergeData localItems remoteItems.
Proof.
  intros (l & -> & Hl)%list_elem_of_fmap.
  destruct (ReconcilerFacts.merge_keeps_local_ids id updatedAt localItems remoteItems l Hl)
    as (x & Hx & <-).
  rewrite ReconcilerFacts.mergeData_downloadAndMerge. by apply list_elem_of_fmap_2.
Qed.

End Ids.




(** A pass whose remote reads and writes all succeed returns [true],
    leaves the merge in the local store and records the sync time. *)
Lemma successful_sync (now : nat → Date) (uid : Z) (dataType : option DataType)
    (api : SupabaseApi) (remoteData : Data) (d : DB) :
  uid ≠ 0 → fetchSupabase dataType api = Some remoteData →
  (∀ u, api_post api u = true) →
  outcome (syncWithSupabase now (Some uid) dataType api d) = Returned true
  ∧ local_after (syncWithSupabase now (Some uid) dataType api d)
    = saveMetadata "supabase-sync" (now 0%nat)
        (importAllData (mergeSupabase dataType (exportAllData d) remoteData) d)
  ∧ uploaded (syncWithSupabase now (Some uid) dataType api d)
    = supabaseUploads dataType (mergeSupabase dataType (exportAllData d) remoteData).
Proof.
  intros Huid Hfetch Hpost. unfold syncWithSupabase.
  rewrite decide_False by done. rewrite Hfetch. cbv zeta.
  assert (∀ ups, uploadAll (api_post api) ups = (true, ups)) as Hup.
  { induction ups as [|u ups IH]; simpl; [done|]. by rewrite Hpost, IH. }
  by rewrite Hup.
Qed.

(** C3 (as the code has it).  A sync pass that throws has left the local
    store untouched only when it failed before the merge: a Supabase request
    for the remote data failed, or the WebDAV server could not be reached.
    When it throws later, on a remote write, the merged data has already been
    put into the local store; only the sync time is not recorded. *)
Theorem failed_sync_local_state (now : nat → Date) (user : option Z)
    (config : WebDAVConfig) (dataType : option DataType)
    (api : SupabaseApi) (srv : WebDAVServer) (d : DB) :
  (outcome (syncWithSupabase now user dataType api d) = Thrown →
     local_after (syncWithSupabase now user dataType api d)
     = match fetchSupabase dataType api with
       | None => d
       | Some remoteData => importAllData (mergeSupabase dataType (exportAllData d) remoteData) d
       end)
  ∧ (outcome (syncWithWebDAV now config dataType srv d) = Thrown →
     local_after (syncWithWebDAV now config dataType srv d)
     = if connects srv then importAllData (mergeWebDAV dataType (exportAllData d) srv) d else d).
Proof.
  split.
  - unfold syncWithSupabase. destruct user as [uid|]; [|done].
    destruct (decide (uid = 0)); [done|].
    destruct (fetchSupabase dataType api) as [remoteData|]; [|done].
    destruct (uploadAll _ _) as [[] done']; [done|]. done.
  - unfold syncWithWebDAV. destruct (enabled config); simpl; [|done].
    destruct (connects srv); simpl; [|done].
    destruct (uploadAll _ _) as [[] done']; [done|]. done.
Qed.

End SyncFacts.

Module SyncExamples.
Import LocalStorage Sync Examples.

(** The dangling link can be made with the store's own operations:
    [addTagToNote] does not look the tag up. *)
Lemma dangling_reachable : (addTagToNote 5 9 withNote5).2 = dangling.
Proof. by vm_compute. Qed.



(** The remote side holds note 8 and refuses the write: the pass throws and
    note 8 is in the local store all the same. *)
Lemma failed_upload_changes_local_store :
  outcome (syncWithSupabase ticks (Some 1) None readOnlyApi emptyDB) = Thrown
  ∧ getAll (notes emptyDB) = []
  ∧ getAll (notes (local_after (syncWithSupabase ticks (Some 1) None readOnlyApi emptyDB)))
    = [remote8]
  ∧ outcome (syncWithWebDAV ticks webdavOn None readOnlyServer emptyDB) = Thrown
  ∧ getAll (notes (local_after (syncWithWebDAV ticks webdavOn None readOnlyServer emptyDB)))
    = [remote8]
  ∧ local_after (syncWithSupabase ticks (Some 1) None readOnlyApi emptyDB) ≠ emptyDB
  ∧ local_after (syncWithWebDAV ticks webdavOn None readOnlyServer emptyDB) ≠ emptyDB.
Proof.
  repeat split; by vm_compute.
Qed.

Lemma failed_sync_witness :
  local_after (syncWithSupabase ticks (Some 1) None downApi emptyDB) = emptyDB
  ∧ local_after (syncWithWebDAV ticks webdavOn None downServer emptyDB) = emptyDB.
Proof.
  destruct (SyncFacts.failed_sync_local_state ticks (Some 1) webdavOn None
              downApi downServer emptyDB) as [H1 H2].
  split.
  - apply H1. reflexivity.
  - apply H2. reflexivity.
Defined.

End SyncExamples.

Module LinkExamples.

Lemma addTagToNote_keeps_links_unique_witness :
  uniquePairs Db.linkOf (Db.noteTags (Db.addTagToNote 5 9 Db.newDb).2)
  ∧ uniquePairs LocalStorage.linkOf
      (LocalStorage.rows
         (LocalStorage.noteTags (LocalStorage.addTagToNote 5 9 Examples.dangling).2))
  ∧ uniquePairs MemStorage.linkOf
      (MemStorage.noteTags (MemStorage.addTagToNote 5 9 MemStorage.newMem).2).
Proof.
  apply (LinkFacts.addTagToNote_keeps_links_unique 5 9 Db.newDb Examples.dangling
           MemStorage.newMem).
  - intros k1 k2 a b Ha. simpl in Ha. rewrite lookup_empty in Ha. discriminate Ha.
  - intros k1 k2 a b Ha Hb _. simpl in Ha, Hb.
    apply lookup_singleton_Some in Ha as [<- _].
    apply lookup_singleton_Some in Hb as [<- _]. reflexivity.
  - intros k1 k2 a b Ha. simpl in Ha. rewrite lookup_empty in Ha. discriminate Ha.
Defined.

(** Adding the pair a second time changes nothing in db.ts and on the
    server, and is refused in utils/storage.ts. *)
Lemma addTagToNote_twice :
  Db.noteTags (Db.addTagToNote 5 9 (Db.addTagToNote 5 9 Db.newDb).2).2
  = Db.noteTags (Db.addTagToNote 5 9 Db.newDb).2
  ∧ MemStorage.addTagToNote 5 9 (MemStorage.addTagToNote 5 9 MemStorage.newMem).2
    = (MemStorage.mkNoteTag 1 (Val 5) (Val 9),
       (MemStorage.addTagToNote 5 9 MemStorage.newMem).2)
  ∧ LocalStorage.addTagToNote 5 9 Examples.dangling
    = (Err "This tag is already added to the note", Examples.dangling).
Proof. repeat split; by vm_compute. Qed.

End LinkExamples.

(** * Further properties *)

(** ** The merge *)

Lemma filter_all {A} (f : A → bool) (l : list A) :
  (∀ x, x ∈ l → f x = true) → List.filter f l = l.
Proof.
  induction l as [|x l IH]; intros H; simpl; [done|].
  rewrite H by (by apply elem_of_cons; left). f_equal.
  apply IH. intros y Hy. apply H. by apply elem_of_cons; right.
Qed.

Lemma NoDup_fmap_filter {A B} (f : A → B) (p : A → bool) (l : list A) :
  NoDup (f <$> l) → NoDup (f <$> List.filter p l).
Proof.
  induction l as [|x l IH]; simpl; [done|].
  intros [Hx Hl]%NoDup_cons. destruct (p x); [|by apply IH].
  rewrite fmap_cons. apply NoDup_cons. split; [|by apply IH].
  intros (y & Hy & Hin)%list_elem_of_fmap. apply Hx.
  apply list_elem_of_In, filter_In in Hin as [Hin _].
  apply list_elem_of_fmap. exists y. split; [done|]. by apply list_elem_of_In.
Qed.

Module MergeProps.
Section MergeProps.
Context {T : Type} (id : T → Z) (updatedAt : T → option Date).

Local Abbreviation positiveItemMap := (Reconciler.positiveItemMap id).
Local Abbreviation pickLocal := (Reconciler.pickLocal id updatedAt).
Local Abbreviation remoteOnly := (Reconciler.remoteOnly id).
Local Abbreviation mergeData := (Reconciler.mergeData id updatedAt).
Local Abbreviation downloadAndMerge := (Reconciler.downloadAndMerge id updatedAt).

Lemma mergeData_unfold (localItems remoteItems : list T) :
  mergeData localItems remoteItems
  = (pickLocal (positiveItemMap remoteItems) <$> localItems)
    ++ List.filter (remoteOnly (positiveItemMap localItems)) remoteItems.
Proof.
  rewrite ReconcilerFacts.mergeData_downloadAndMerge.
  apply ReconcilerFacts.merge_unfold.
Qed.

Lemma pickLocal_ids (localItems remoteItems : list T) :
  id <$> (pickLocal (positiveItemMap remoteItems) <$> localItems) = id <$> localItems.
Proof.
  rewrite <- list_fmap_compose. apply list_fmap_ext. intros _ l _. simpl.
  apply ReconcilerFacts.pickLocal_id. intros k r Hr.
  by apply ReconcilerFacts.positiveItemMap_Some in Hr as (_ & ? & _).
Qed.

(** X1.  The merge written in [syncWithSupabase] and the one written in
    [syncWithWebDAV] compute the same list from the same two lists, although
    the second indexes every local record and does not return early on an
    empty remote list; a remote file that is missing merges like an empty
    one, into the local list itself. *)
Theorem merge_implementations_agree (localItems remoteItems : list T) :
  mergeData localItems remoteItems = downloadAndMerge (Some remoteItems) localItems
  ∧ downloadAndMerge (Some []) localItems = localItems
  ∧ downloadAndMerge None localItems = localItems
  ∧ mergeData localItems [] = localItems.
Proof.
  split; [apply ReconcilerFacts.mergeData_downloadAndMerge|].
  split; [|done].
  by rewrite <- ReconcilerFacts.mergeData_downloadAndMerge.
Qed.

(** X2.  When every remote identifier is positive and no identifier occurs on
    both sides, the merge is the local list followed by the remote list:
    every record of both sides, each once, local ones first. *)
Theorem merge_disjoint (localItems remoteItems : list T) :
  (∀ r, r ∈ remoteItems → 0 < id r) →
  (∀ l r, l ∈ localItems → r ∈ remoteItems → id l ≠ id r) →
  mergeData localItems remoteItems = localItems ++ remoteItems
  ∧ downloadAndMerge (Some remoteItems) localItems = localItems ++ remoteItems
  ∧ length (mergeData localItems remoteItems)
    = (length localItems + length remoteItems)%nat.
Proof.
  intros Hpos Hdisj.
  assert (mergeData localItems remoteItems = localItems ++ remoteItems) as H.
  { rewrite mergeData_unfold. f_equal.
    - apply fmap_fixed. intros l Hl. unfold Reconciler.pickLocal.
      case_bool_decide; [|done].
      destruct (positiveItemMap remoteItems !! id l) as [r|] eqn:Hr; [|done].
      apply ReconcilerFacts.positiveItemMap_Some in Hr as (Hr & Hid & _).
      by destruct (Hdisj l r Hl Hr).
    - apply filter_all. intros r Hr. apply ReconcilerFacts.remoteOnly_true.
      split; [by apply Hpos|]. intros l Hl. by apply Hdisj. }
  split; [done|]. split.
  - by rewrite <- ReconcilerFacts.mergeData_downloadAndMerge.
  - by rewrite H, length_app.
Qed.

(** X3.  The merge never loses or moves a local record's place: it is at
    least as long as the local list, and at the position of every local
    record it holds a record with the same identifier. *)
Theorem merge_keeps_local_positions (localItems remoteItems : list T) (i : nat) (l : T) :
  localItems !! i = Some l →
  (length localItems ≤ length (mergeData localItems remoteItems))%nat
  ∧ ∃ x, mergeData localItems remoteItems !! i = Some x ∧ id x = id l.
Proof.
  intros Hl. rewrite mergeData_unfold. split.
  - rewrite length_app, length_fmap. lia.
  - exists (pickLocal (positiveItemMap remoteItems) l). split.
    + rewrite lookup_app_l.
      * by rewrite list_lookup_fmap, Hl.
      * rewrite length_fmap. by eapply lookup_lt_Some.
    + apply ReconcilerFacts.pickLocal_id. intros k r Hr.
      by apply ReconcilerFacts.positiveItemMap_Some in Hr as (_ & ? & _).
Qed.

Lemma mergeData_ids_NoDup (localItems remoteItems : list T) :
  NoDup (id <$> localItems) → NoDup (id <$> remoteItems) →
  NoDup (id <$> mergeData localItems remoteItems).
Proof.
  intros Hl Hr.
  rewrite mergeData_unfold, fmap_app, pickLocal_ids.
  apply NoDup_app. split; [done|]. split; [|by apply NoDup_fmap_filter].
  intros k Hk (r & -> & Hin)%list_elem_of_fmap.
  apply list_elem_of_In, filter_In in Hin as [_ Hro].
  apply ReconcilerFacts.remoteOnly_true in Hro as [_ Hne].
  apply list_elem_of_fmap in Hk as (l & Heq & Hlin). by apply (Hne l).
Qed.

(** X4.  When the identifiers of the local list are pairwise distinct and so
    are those of the remote list, the identifiers of the merged list are
    pairwise distinct: the merge is deduplicated by identifier. *)
Theorem merge_ids_distinct (localItems remoteItems : list T) :
  NoDup (id <$> localItems) → NoDup (id <$> remoteItems) →
  NoDup (id <$> mergeData localItems remoteItems)
  ∧ NoDup (id <$> downloadAndMerge (Some remoteItems) localItems).
Proof.
  intros Hl Hr. rewrite <- ReconcilerFacts.mergeData_downloadAndMerge.
  split; by apply mergeData_ids_NoDup.
Qed.

(** X5.  Records without an [updatedAt] property (folders, tags, links) are
    never replaced by their remote copy: the merged list starts with the
    local list itself. *)
Theorem merge_without_timestamp_keeps_local (localItems remoteItems : list T) :
  (∀ l, l ∈ localItems → updatedAt l = None) →
  take (length localItems) (mergeData localItems remoteItems) = localItems
  ∧ take (length localItems) (downloadAndMerge (Some remoteItems) localItems)
    = localItems.
Proof.
  intros Hno. rewrite <- ReconcilerFacts.mergeData_downloadAndMerge.
  assert (take (length localItems) (mergeData localItems remoteItems) = localItems)
    as H; [|done].
  rewrite mergeData_unfold.
  assert (pickLocal (positiveItemMap remoteItems) <$> localItems = localItems) as ->.
  { apply fmap_fixed. intros l Hl. unfold Reconciler.pickLocal.
    case_bool_decide; [|done].
    destruct (positiveItemMap remoteItems !! id l); [|done]. by rewrite (Hno l Hl). }
  by rewrite take_app_length.
Qed.

(** X6.  When the date of either copy cannot be read, the comparison is
    false and the remote copy is kept, whatever the other date is. *)
Theorem merge_invalid_date_keeps_remote
    (localItems remoteItems : list T) (i : nat) (l r : T) (dl dr : Date) :
  localItems !! i = Some l → 0 < id l →
  r ∈ remoteItems → id r = id l →
  (∀ r', r' ∈ remoteItems → id r' = id l → r' = r) →
  updatedAt l = Some dl → updatedAt r = Some dr →
  dl = InvalidDate ∨ dr = InvalidDate →
  mergeData localItems remoteItems !! i = Some r
  ∧ downloadAndMerge (Some remoteItems) localItems !! i = Some r.
Proof.
  intros Hi Hpos Hr Hid Huniq Hl Hrt Hinv.
  rewrite <- ReconcilerFacts.mergeData_downloadAndMerge.
  assert (mergeData localItems remoteItems !! i = Some r) as H; [|done].
  rewrite mergeData_unfold, lookup_app_l.
  2:{ rewrite length_fmap. by eapply lookup_lt_Some. }
  rewrite list_lookup_fmap, Hi. simpl. f_equal.
  assert (positiveItemMap remoteItems !! id l = Some r) as Hlook.
  { destruct (ReconcilerFacts.positiveItemMap_is_Some id remoteItems r Hr ltac:(lia))
      as [y Hy].
    rewrite Hid in Hy. rewrite Hy. f_equal.
    apply ReconcilerFacts.positiveItemMap_Some in Hy as (Hy & Hyid & _).
    by apply Huniq. }
  unfold Reconciler.pickLocal. rewrite bool_decide_eq_true_2 by done.
  rewrite Hlook, Hl, Hrt.
  destruct Hinv as [-> | ->]; [done|]. by destruct dl.
Qed.

End MergeProps.
End MergeProps.

(** ** The local store of utils/storage.ts, continued *)

Module LocalStoreProps.
Import LocalStorage.

(** *** Object stores *)

Lemma rows_put {P} (x : Stored P) (s : ObjectStore P) :
  rows (put (toInput x) s).2 = <[id x := props x]> (rows s).
Proof. done. Qed.




(** The rows after a list of objects has been put, when the objects agree
    with a table [m]. *)
Lemma putAll_lookup {P} (xs : list (Stored P)) (s : ObjectStore P) (m : gmap Z P) k :
  (∀ x, x ∈ xs → m !! id x = Some (props x)) →
  rows (putAll xs s) !! k
  = if decide (k ∈ id <$> xs) then m !! k else rows s !! k.
Proof.
  revert s. induction xs as [|x xs IH]; intros s Hm.
  - simpl. destruct (decide (k ∈ id <$> @nil (Stored P))) as [H|H]; [|done].
    by apply elem_of_nil in H.
  - change (putAll (x :: xs) s) with (putAll xs (put (toInput x) s).2).
    rewrite IH by (intros y Hy; apply Hm; by apply elem_of_cons; right).
    rewrite rows_put, fmap_cons.
    destruct (decide (k ∈ id <$> xs)) as [Hin|Hout].
    + rewrite decide_True; [done|]. apply elem_of_cons. by right.
    + destruct (decide (k = id x)) as [->|Hne].
      * rewrite lookup_insert_eq, decide_True by (apply elem_of_cons; by left).
        symmetry. apply Hm. apply elem_of_cons. by left.
      * rewrite lookup_insert_ne by done.
        rewrite decide_False; [done|]. intros [?|?]%elem_of_cons; done.
Qed.

Lemma putAll_keygen_ge {P} (xs : list (Stored P)) (s : ObjectStore P) :
  keygen s ≤ keygen (putAll xs s).
Proof.
  revert s. induction xs as [|x xs IH]; intros s; [simpl; lia|].
  change (putAll (x :: xs) s) with (putAll xs (put (toInput x) s).2).
  etrans; [|apply IH]. simpl. case_bool_decide; lia.
Qed.

Lemma elem_of_getAll_ids {P} (s : ObjectStore P) k :
  k ∈ id <$> getAll s ↔ is_Some (rows s !! k).
Proof.
  unfold getAll. rewrite list_elem_of_fmap. split.
  - intros (x & -> & Hx). apply elem_of_rowsInKeyOrder in Hx. by eexists.
  - intros [p Hp]. exists (mkStored k p). split; [done|].
    by apply elem_of_rowsInKeyOrder.
Qed.

(** Putting back what [getAll] returned rebuilds the rows. *)
Lemma putAll_getAll {P} (s s' : ObjectStore P) :
  rows (putAll (getAll s) (clearStore s')) = rows s.
Proof.
  apply map_eq. intros k.
  rewrite (putAll_lookup _ _ (rows s)).
  - destruct (decide (k ∈ id <$> getAll s)) as [Hin|Hout]; [done|].
    simpl. rewrite lookup_empty. symmetry. apply eq_None_not_Some.
    intros Hs. apply Hout. by apply elem_of_getAll_ids.
  - intros x Hx. by apply elem_of_rowsInKeyOrder.
Qed.

(** *** Deleting the links of a note or of a tag *)

Lemma deleteLinks_spec (links : list NoteTag) (d : DB) :
  notes (deleteLinks links d) = notes d
  ∧ folders (deleteLinks links d) = folders d
  ∧ tags (deleteLinks links d) = tags d
  ∧ metadata (deleteLinks links d) = metadata d
  ∧ keygen (noteTags (deleteLinks links d)) = keygen (noteTags d)
  ∧ ∀ k, rows (noteTags (deleteLinks links d)) !! k
         = if decide (k ∈ id <$> links) then None else rows (noteTags d) !! k.
Proof.
  unfold deleteLinks. revert d.
  induction links as [|nt links IH]; intros d.
  - simpl. repeat split; done.
  - simpl foldl.
    destruct (IH (set_noteTags (delete_key (id nt) (noteTags d)) d))
      as (-> & -> & -> & -> & -> & Hrows).
    repeat split; try done. intros k. rewrite Hrows.
    cbn [set_noteTags noteTags delete_key rows]. rewrite fmap_cons.
    destruct (decide (k ∈ id <$> links)) as [Hin|Hout].
    + rewrite decide_True; [done|]. apply elem_of_cons. by right.
    + destruct (decide (k = id nt)) as [->|Hne].
      * rewrite lookup_delete_eq, decide_True; [done|]. apply elem_of_cons. by left.
      * rewrite lookup_delete_ne by done.
        rewrite decide_False; [done|]. intros [?|?]%elem_of_cons; done.
Qed.

Lemma elem_of_noteTagsByNote n (d : DB) k :
  k ∈ id <$> noteTagsByNote n d
  ↔ ∃ p, rows (noteTags d) !! k = Some p ∧ noteId p = n.
Proof.
  unfold noteTagsByNote, getAll. rewrite list_elem_of_fmap. split.
  - intros (x & -> & Hx). apply list_elem_of_In, filter_In in Hx as [Hx Hn].
    apply list_elem_of_In, elem_of_rowsInKeyOrder in Hx.
    apply bool_decide_eq_true in Hn. eauto.
  - intros (p & Hp & Hn). exists (mkStored k p). split; [done|].
    apply list_elem_of_In, filter_In. split.
    + by apply list_elem_of_In, elem_of_rowsInKeyOrder.
    + by apply bool_decide_eq_true.
Qed.

Lemma elem_of_noteTagsByTag t (d : DB) k :
  k ∈ id <$> noteTagsByTag t d
  ↔ ∃ p, rows (noteTags d) !! k = Some p ∧ tagId p = t.
Proof.
  unfold noteTagsByTag, getAll. rewrite list_elem_of_fmap. split.
  - intros (x & -> & Hx). apply list_elem_of_In, filter_In in Hx as [Hx Hn].
    apply list_elem_of_In, elem_of_rowsInKeyOrder in Hx.
    apply bool_decide_eq_true in Hn. eauto.
  - intros (p & Hp & Hn). exists (mkStored k p). split; [done|].
    apply list_elem_of_In, filter_In. split.
    + by apply list_elem_of_In, elem_of_rowsInKeyOrder.
    + by apply bool_decide_eq_true.
Qed.

Lemma deleteNote_spec (k : Z) (d : DB) :
  (deleteNote k d).1 = true
  ∧ rows (notes (deleteNote k d).2) = delete k (rows (notes d))
  ∧ (∀ j, rows (noteTags (deleteNote k d).2) !! j
          = match rows (noteTags d) !! j with
            | Some p => if decide (noteId p = k) then None else Some p
            | None => None
            end)
  ∧ tags (deleteNote k d).2 = tags d
  ∧ folders (deleteNote k d).2 = folders d.
Proof.
  unfold deleteNote. cbv zeta. simpl.
  destruct (deleteLinks_spec (noteTagsByNote k d) d) as (Hn & Hf & Ht & _ & _ & Hrows).
  rewrite Hn, Hf, Ht. repeat split; try done.
  intros j. rewrite Hrows.
  destruct (decide (j ∈ id <$> noteTagsByNote k d)) as [Hin|Hout].
  - apply elem_of_noteTagsByNote in Hin as (p & -> & Hp). by rewrite decide_True.
  - destruct (rows (noteTags d) !! j) as [p|] eqn:Hj; [|done].
    rewrite decide_False; [done|]. intros Hp. apply Hout.
    apply elem_of_noteTagsByNote. eauto.
Qed.

Lemma deleteTag_spec (k : Z) (d : DB) :
  (deleteTag k d).1 = true
  ∧ rows (tags (deleteTag k d).2) = delete k (rows (tags d))
  ∧ (∀ j, rows (noteTags (deleteTag k d).2) !! j
          = match rows (noteTags d) !! j with
            | Some p => if decide (tagId p = k) then None else Some p
            | None => None
            end)
  ∧ notes (deleteTag k d).2 = notes d
  ∧ folders (deleteTag k d).2 = folders d.
Proof.
  unfold deleteTag. cbv zeta. simpl.
  destruct (deleteLinks_spec (noteTagsByTag k d) d) as (Hn & Hf & Ht & _ & _ & Hrows).
  rewrite Hn, Hf, Ht. repeat split; try done.
  intros j. rewrite Hrows.
  destruct (decide (j ∈ id <$> noteTagsByTag k d)) as [Hin|Hout].
  - apply elem_of_noteTagsByTag in Hin as (p & -> & Hp). by rewrite decide_True.
  - destruct (rows (noteTags d) !! j) as [p|] eqn:Hj; [|done].
    rewrite decide_False; [done|]. intros Hp. apply Hout.
    apply elem_of_noteTagsByTag. eauto.
Qed.

(** X7.  [deleteNote] removes the note and exactly the links whose note
    reference is the note: every other link, every other note, the tags and
    the folders stay as they were, so no link to the deleted note is left.
    [deleteTag] does the same for a tag and the links whose tag reference
    is the tag; notes are never deleted by it. *)
Theorem local_delete_cascades (k : Z) (d : DB) :
  ((deleteNote k d).1 = true
   ∧ rows (notes (deleteNote k d).2) = delete k (rows (notes d))
   ∧ (∀ j, rows (noteTags (deleteNote k d).2) !! j
           = match rows (noteTags d) !! j with
             | Some p => if decide (noteId p = k) then None else Some p
             | None => None
             end)
   ∧ tags (deleteNote k d).2 = tags d
   ∧ folders (deleteNote k d).2 = folders d)
  ∧ ((deleteTag k d).1 = true
     ∧ rows (tags (deleteTag k d).2) = delete k (rows (tags d))
     ∧ (∀ j, rows (noteTags (deleteTag k d).2) !! j
             = match rows (noteTags d) !! j with
               | Some p => if decide (tagId p = k) then None else Some p
               | None => None
               end)
     ∧ notes (deleteTag k d).2 = notes d
     ∧ folders (deleteTag k d).2 = folders d).
Proof. split; [apply deleteNote_spec|apply deleteTag_spec]. Qed.

(** *** Detaching a tag *)

Lemma find_link_None n t (d : DB) :
  List.find (λ nt : NoteTag, bool_decide (tagId (props nt) = t)) (noteTagsByNote n d)
  = None
  ↔ ∀ j p, rows (noteTags d) !! j = Some p → linkOf p ≠ (n, t).
Proof.
  split.
  - intros Hfind j p Hj Heq. unfold linkOf in Heq. injection Heq as Hn Ht.
    assert (mkStored j p ∈ noteTagsByNote n d) as Hin.
    { apply list_elem_of_In, filter_In. split.
      - by apply list_elem_of_In, elem_of_rowsInKeyOrder.
      - by apply bool_decide_eq_true. }
    apply list_elem_of_In in Hin.
    pose proof (List.find_none _ _ Hfind _ Hin) as Hf. simpl in Hf.
    by rewrite bool_decide_eq_true_2 in Hf.
  - intros Hno.
    destruct (List.find _ _) as [x|] eqn:Hfind; [|done].
    apply List.find_some in Hfind as [Hin Ht].
    apply filter_In in Hin as [Hin Hn].
    apply list_elem_of_In, elem_of_rowsInKeyOrder in Hin.
    apply bool_decide_eq_true in Ht, Hn.
    destruct (Hno (id x) (props x) Hin). unfold linkOf. by rewrite Hn, Ht.
Qed.

Lemma find_link_Some n t (d : DB) x :
  List.find (λ nt : NoteTag, bool_decide (tagId (props nt) = t)) (noteTagsByNote n d)
  = Some x →
  rows (noteTags d) !! id x = Some (props x) ∧ linkOf (props x) = (n, t).
Proof.
  intros Hfind. apply List.find_some in Hfind as [Hin Ht].
  apply filter_In in Hin as [Hin Hn].
  apply list_elem_of_In, elem_of_rowsInKeyOrder in Hin.
  apply bool_decide_eq_true in Ht, Hn. split; [done|].
  unfold linkOf. by rewrite Hn, Ht.
Qed.

(** X8.  [removeTagFromNote] throws and changes nothing when the note does
    not carry the tag.  When it does and no pair is linked twice, it deletes
    that link and no other, so that afterwards no link joins the note and the
    tag. *)
Theorem removeTagFromNote_removes_the_link (n t : Z) (d : DB) :
  uniquePairs linkOf (rows (noteTags d)) →
  ((∀ j p, rows (noteTags d) !! j = Some p → linkOf p ≠ (n, t)) →
     removeTagFromNote n t d = (Err "Tag is not associated with this note", d))
  ∧ (∀ j p, rows (noteTags d) !! j = Some p → linkOf p = (n, t) →
       removeTagFromNote n t d
       = (Ok true, set_noteTags (delete_key j (noteTags d)) d))
  ∧ (∀ j p, rows (noteTags (removeTagFromNote n t d).2) !! j = Some p →
            linkOf p ≠ (n, t)).
Proof.
  intros Hu. split; [|split].
  - intros Hno. unfold removeTagFromNote. cbv zeta.
    destruct (List.find _ _) as [x|] eqn:Hfind; [|done].
    apply find_link_Some in Hfind as [Hx Hpx]. by destruct (Hno _ _ Hx).
  - intros j p Hj Hp. unfold removeTagFromNote. cbv zeta.
    destruct (List.find _ _) as [x|] eqn:Hfind.
    + apply find_link_Some in Hfind as [Hx Hpx].
      assert (id x = j) as -> by (eapply Hu; [done..|congruence]). done.
    + pose proof (proj1 (find_link_None n t d) Hfind) as Hno.
      by destruct (Hno j p Hj).
  - intros j p. unfold removeTagFromNote. cbv zeta.
    destruct (List.find _ _) as [x|] eqn:Hfind; simpl.
    + apply find_link_Some in Hfind as [Hx Hpx].
      intros [Hne Hj]%lookup_delete_Some Hp. apply Hne.
      eapply Hu; [done..|congruence].
    + exact (proj1 (find_link_None n t d) Hfind j p).
Qed.

(** X9.  Attaching a tag that the note does not carry and detaching it
    again gives back the links there were: only the key generator has moved
    on, so the key of the removed link is not used again. *)
Theorem addTagToNote_removeTagFromNote (n t : Z) (d : DB) :
  storeOk (noteTags d) →
  (∀ j p, rows (noteTags d) !! j = Some p → linkOf p ≠ (n, t)) →
  (removeTagFromNote n t (addTagToNote n t d).2).1 = Ok true
  ∧ rows (noteTags (removeTagFromNote n t (addTagToNote n t d).2).2)
    = rows (noteTags d)
  ∧ keygen (noteTags (removeTagFromNote n t (addTagToNote n t d).2).2)
    = keygen (noteTags d) + 1.
Proof.
  intros [_ Hkeys] Hno.
  assert (rows (noteTags d) !! keygen (noteTags d) = None) as Hfresh.
  { apply eq_None_not_Some. intros Hs. apply Hkeys in Hs. lia. }
  assert (addTagToNote n t d
          = (Ok (Some (mkStored (keygen (noteTags d)) (mkNoteTagProps n t))),
             set_noteTags (mkStore (<[keygen (noteTags d) := mkNoteTagProps n t]>
                                      (rows (noteTags d)))
                                   (keygen (noteTags d) + 1)) d)) as ->.
  { unfold addTagToNote. cbv zeta.
    destruct (existsb _ _) eqn:Hex.
    - apply existsb_exists in Hex as (x & Hx & Ht).
      apply filter_In in Hx as [Hx Hn].
      apply list_elem_of_In, elem_of_rowsInKeyOrder in Hx.
      apply bool_decide_eq_true in Ht, Hn.
      destruct (Hno _ _ Hx). unfold linkOf. by rewrite Hn, Ht.
    - unfold put, get. simpl. by rewrite lookup_insert_eq. }
  simpl. unfold removeTagFromNote. cbv zeta.
  destruct (List.find _ _) as [x|] eqn:Hfind.
  - apply find_link_Some in Hfind as [Hx Hpx]. simpl in Hx.
    assert (id x = keygen (noteTags d)) as Hid.
    { destruct (decide (id x = keygen (noteTags d))) as [|Hne]; [done|].
      rewrite lookup_insert_ne in Hx by done. by destruct (Hno _ _ Hx). }
    simpl. rewrite Hid. split; [done|]. split; [|done].
    by apply delete_insert_id.
  - pose proof (proj1 (find_link_None n t _) Hfind) as Hnone.
    destruct (Hnone (keygen (noteTags d)) (mkNoteTagProps n t)); [|done].
    simpl. apply lookup_insert_eq.
Qed.

(** *** Saving a note that comes with a positive identifier *)


(** X11.  [saveNote] of a note whose positive identifier is not in the store
    stores the given properties under that identifier as they are: no
    default is filled in and no timestamp is set.  The key generator moves
    past the identifier, so that it is not generated later. *)
Theorem saveNote_unknown_id_stores_as_given (now : nat → Date)
    (note : Input NoteProps) (d : DB) (k : Z) :
  storeOk (notes d) →
  id_opt note = Some k → 0 < k → rows (notes d) !! k = None →
  (saveNote now note d).1 = Some (mkStored k (fields note))
  ∧ rows (notes (saveNote now note d).2) = <[k := fields note]> (rows (notes d))
  ∧ k < keygen (notes (saveNote now note d).2)
  ∧ storeOk (notes (saveNote now note d).2).
Proof.
  intros Hok Hid Hpos Hk.
  assert (saveNote now note d
          = (Some (mkStored k (fields note)),
             set_notes (put note (notes d)).2 d)) as Heq.
  { unfold saveNote. rewrite Hid. unfold positiveId.
    rewrite bool_decide_eq_true_2 by done.
    unfold get at 1. rewrite Hk. simpl. unfold put. rewrite Hid.
    unfold get. simpl. by rewrite lookup_insert_eq. }
  rewrite Heq. simpl. unfold put. rewrite Hid. simpl.
  split; [done|]. split; [done|]. split.
  - case_bool_decide; [lia|]. lia.
  - pose proof (LocalStorageFacts.put_storeOk note (notes d) Hok) as H.
    unfold put in H. by rewrite Hid in H.
Qed.

(** *** The key generators stay ahead *)









(** *** Export and import *)

Lemma foldl_insert_lookup (l : list (string * Date)) (m0 : gmap string Date) k :
  NoDup l.*1 →
  foldl (λ m kv, <[kv.1 := kv.2]> m) m0 l !! k
  = match (list_to_map l : gmap string Date) !! k with
    | Some v => Some v
    | None => m0 !! k
    end.
Proof.
  revert m0. induction l as [|[k' v'] l IH]; intros m0 Hnd.
  - simpl. by rewrite lookup_empty.
  - apply NoDup_cons in Hnd as [Hk' Hnd].
    change (foldl _ m0 ((k', v') :: l))
      with (foldl (λ m kv, <[kv.1 := kv.2]> m) (<[k' := v']> m0) l).
    rewrite IH by done.
    change (list_to_map ((k', v') :: l) : gmap string Date)
      with (<[k' := v']> (list_to_map l : gmap string Date)).
    destruct (decide (k = k')) as [->|Hne].
    + rewrite (not_elem_of_list_to_map_1 _ _ Hk'). by rewrite !lookup_insert_eq.
    + by rewrite !lookup_insert_ne.
Qed.

Lemma foldl_insert_map_to_list (m m0 : gmap string Date) k :
  foldl (λ m kv, <[kv.1 := kv.2]> m) m0 (map_to_list m) !! k
  = match m !! k with Some v => Some v | None => m0 !! k end.
Proof.
  rewrite foldl_insert_lookup by apply NoDup_fst_map_to_list.
  by rewrite list_to_map_to_list.
Qed.

Lemma putAll_own {P} (s : ObjectStore P) : rows (putAll (getAll s) s) = rows s.
Proof.
  apply map_eq. intros k. rewrite (putAll_lookup _ _ (rows s)).
  - by destruct (decide _).
  - intros x Hx. by apply elem_of_rowsInKeyOrder.
Qed.

(** X13.  What [exportAllData] returns, imported into a store that has been
    cleared, gives a store whose export is the same: records, links and
    sync times.  Imported again into the store it came from, it changes
    nothing that is exported. *)
Theorem export_import_round_trip (d d' : DB) :
  exportAllData (importExported (exportAllData d) (clearLocalStorage d'))
  = exportAllData d
  ∧ exportAllData (importExported (exportAllData d) d) = exportAllData d.
Proof.
  split.
  - unfold exportAllData, getAll.
    f_equal; try (f_equal; exact (putAll_getAll _ _)).
    apply map_eq. intros k.
    etrans; [exact (foldl_insert_map_to_list (metadata d) ∅ k)|].
    rewrite lookup_empty. by destruct (metadata d !! k).
  - unfold exportAllData, getAll.
    f_equal; try (f_equal; exact (putAll_own _)).
    apply map_eq. intros k.
    etrans; [exact (foldl_insert_map_to_list (metadata d) (metadata d) k)|].
    by destruct (metadata d !! k).
Qed.

Lemma putAll_lookup_notin {P} (xs : list (Stored P)) (s : ObjectStore P) k :
  k ∉ id <$> xs → rows (putAll xs s) !! k = rows s !! k.
Proof.
  revert s. induction xs as [|x xs IH]; intros s Hk; [done|].
  change (putAll (x :: xs) s) with (putAll xs (put (toInput x) s).2).
  rewrite fmap_cons in Hk. apply not_elem_of_cons in Hk as [Hne Hk].
  rewrite IH, rows_put by done. by rewrite lookup_insert_ne.
Qed.

Lemma putAll_lookup_in {P} (xs : list (Stored P)) (s : ObjectStore P) k :
  k ∈ id <$> xs → ∃ x, x ∈ xs ∧ id x = k ∧ rows (putAll xs s) !! k = Some (props x).
Proof.
  revert s. induction xs as [|x xs IH]; intros s Hk; [by apply elem_of_nil in Hk|].
  change (putAll (x :: xs) s) with (putAll xs (put (toInput x) s).2).
  destruct (decide (k ∈ id <$> xs)) as [Hin|Hout].
  - destruct (IH (put (toInput x) s).2 Hin) as (y & Hy & Hid & Hrow).
    exists y. split; [by apply elem_of_cons; right|done].
  - rewrite fmap_cons in Hk. apply elem_of_cons in Hk as [->|Hk]; [|done].
    exists x. split; [by apply elem_of_cons; left|]. split; [done|].
    rewrite putAll_lookup_notin, rows_put by done. apply lookup_insert_eq.
Qed.

(** X14.  [importAllData] adds to the store and overwrites in it, and
    removes nothing: a note whose identifier is not among the imported notes
    is as it was, and under the identifier of an imported note the store
    holds one of the imported notes with that identifier.  An array that is
    absent or empty leaves its store as it was; data without a [metadata]
    property, as the sync passes give it, leaves the sync times as they
    were. *)
Theorem importAllData_upserts (data : Data) (d : DB) :
  (∀ k, k ∉ id <$> default [] (data_notes data) →
        rows (notes (importAllData data d)) !! k = rows (notes d) !! k)
  ∧ (∀ k, k ∈ id <$> default [] (data_notes data) →
          ∃ x, x ∈ default [] (data_notes data) ∧ id x = k
               ∧ rows (notes (importAllData data d)) !! k = Some (props x))
  ∧ (∀ k, k ∉ id <$> default [] (data_noteTags data) →
          rows (noteTags (importAllData data d)) !! k = rows (noteTags d) !! k)
  ∧ (∀ k, is_Some (rows (folders d) !! k) →
          is_Some (rows (folders (importAllData data d)) !! k))
  ∧ (∀ k, is_Some (rows (tags d) !! k) →
          is_Some (rows (tags (importAllData data d)) !! k))
  ∧ (data_notes data = None ∨ data_notes data = Some [] →
     notes (importAllData data d) = notes d)
  ∧ metadata (importAllData data d) = metadata d.
Proof.
  unfold importAllData. cbv zeta. simpl. repeat apply conj.
  - intros k Hk. by apply putAll_lookup_notin.
  - intros k Hk. by apply putAll_lookup_in.
  - intros k Hk. by apply putAll_lookup_notin.
  - intros k Hk.
    destruct (decide (k ∈ id <$> default [] (data_folders data))) as [Hin|Hout].
    + destruct (putAll_lookup_in _ (folders d) k Hin) as (x & _ & _ & ->). by eexists.
    + by rewrite putAll_lookup_notin.
  - intros k Hk.
    destruct (decide (k ∈ id <$> default [] (data_tags data))) as [Hin|Hout].
    + destruct (putAll_lookup_in _ (tags d) k Hin) as (x & _ & _ & ->). by eexists.
    + by rewrite putAll_lookup_notin.
  - by intros [->| ->].
  - done.
Qed.

(** *** The tags of a note and the notes of a tag *)

(** X15.  [getTagsForNote] returns the tags that a link of the note points
    to and that the store holds; a link to a tag that is gone is skipped
    without an error.  [getNotesForTag] is the same with the two sides
    exchanged. *)
Theorem getTagsForNote_spec (n : Z) (d : DB) :
  (∀ t : Tag, t ∈ getTagsForNote n d
     ↔ ∃ p, p ∈ props <$> getAll (noteTags d)
            ∧ noteId p = n ∧ tagId p = id t
            ∧ rows (tags d) !! id t = Some (props t))
  ∧ (∀ x : Note, x ∈ getNotesForTag n d
     ↔ ∃ p, p ∈ props <$> getAll (noteTags d)
            ∧ tagId p = n ∧ noteId p = id x
            ∧ rows (notes d) !! id x = Some (props x)).
Proof.
  split.
  - intros t. unfold getTagsForNote. rewrite list_elem_of_omap. split.
    + intros (nt & Hnt & Hget).
      apply list_elem_of_In, filter_In in Hnt as [Hnt Hn].
      apply bool_decide_eq_true in Hn. apply list_elem_of_In in Hnt.
      unfold get in Hget.
      destruct (rows (tags d) !! tagId (props nt)) as [q|] eqn:Hq; [|done].
      injection Hget as <-. simpl.
      exists (props nt). split; [by apply list_elem_of_fmap_2|]. done.
    + intros (p & Hp & Hn & Ht & Hrow).
      apply list_elem_of_fmap in Hp as (nt & -> & Hnt).
      exists nt. split.
      * apply list_elem_of_In, filter_In. split; [by apply list_elem_of_In|].
        by apply bool_decide_eq_true.
      * unfold get. rewrite Ht, Hrow. by destruct t.
  - intros x. unfold getNotesForTag. rewrite list_elem_of_omap. split.
    + intros (nt & Hnt & Hget).
      apply list_elem_of_In, filter_In in Hnt as [Hnt Hn].
      apply bool_decide_eq_true in Hn. apply list_elem_of_In in Hnt.
      unfold get in Hget.
      destruct (rows (notes d) !! noteId (props nt)) as [q|] eqn:Hq; [|done].
      injection Hget as <-. simpl.
      exists (props nt). split; [by apply list_elem_of_fmap_2|]. done.
    + intros (p & Hp & Hn & Ht & Hrow).
      apply list_elem_of_fmap in Hp as (nt & -> & Hnt).
      exists nt. split.
      * apply list_elem_of_In, filter_In. split; [by apply list_elem_of_In|].
        by apply bool_decide_eq_true.
      * unfold get. rewrite Ht, Hrow. by destruct x.
Qed.

End LocalStoreProps.

(** ** The sync passes *)

Lemma rowsInKeyOrder_ids_NoDup {P} (m : gmap Z P) : NoDup (id <$> rowsInKeyOrder m).
Proof.
  unfold rowsInKeyOrder. rewrite <- list_fmap_compose.
  rewrite (list_fmap_ext _ fst (merge_sort key_le (map_to_list m)))
    by (by intros i [k p] _).
  rewrite merge_sort_Permutation. apply NoDup_fst_map_to_list.
Qed.

Lemma NoDup_fmap_eq {A B} (f : A → B) (l : list A) x y :
  NoDup (f <$> l) → x ∈ l → y ∈ l → f x = f y → x = y.
Proof.
  induction l as [|a l IH]; intros Hnd Hx Hy Hf; [by apply elem_of_nil in Hx|].
  rewrite fmap_cons in Hnd. apply NoDup_cons in Hnd as [Ha Hnd].
  apply elem_of_cons in Hx as [->|Hx], Hy as [->|Hy].
  - done.
  - destruct Ha. rewrite Hf. by apply list_elem_of_fmap_2.
  - destruct Ha. rewrite <- Hf. by apply list_elem_of_fmap_2.
  - by apply IH.
Qed.

Module SyncProps.
Import LocalStorage Sync.

Lemma uploadAll_spec (accepts : Upload → bool) (ups : list Upload) :
  (uploadAll accepts ups).2 `prefix_of` ups
  ∧ Forall (λ u, accepts u = true) (uploadAll accepts ups).2
  ∧ ((uploadAll accepts ups).1 = true → (uploadAll accepts ups).2 = ups)
  ∧ ((uploadAll accepts ups).1 = false →
     ∃ u, ups !! length (uploadAll accepts ups).2 = Some u ∧ accepts u = false).
Proof.
  induction ups as [|u ups (Hpre & Hall & Hok & Hbad)]; simpl.
  - repeat split; done.
  - destruct (accepts u) eqn:Hu; simpl.
    + destruct (uploadAll accepts ups) as [ok sent]; simpl in *.
      repeat split.
      * by apply prefix_cons.
      * by apply Forall_cons.
      * intros Htrue. by rewrite Hok.
      * done.
    + repeat split; try done.
      * apply prefix_nil.
      * intros _. by exists u.
Qed.

Lemma syncWithSupabase_cases (now : nat → Date) (user : option Z)
    (dataType : option DataType) (api : SupabaseApi) (d : DB) :
  syncWithSupabase now user dataType api d = mkRun (Returned false) d []
  ∨ (fetchSupabase dataType api = None
     ∧ syncWithSupabase now user dataType api d = mkRun Thrown d [])
  ∨ ∃ remoteData,
      fetchSupabase dataType api = Some remoteData
      ∧ syncWithSupabase now user dataType api d
        = if (uploadAll (api_post api)
                (supabaseUploads dataType
                   (mergeSupabase dataType (exportAllData d) remoteData))).1
          then mkRun (Returned true)
                 (saveMetadata "supabase-sync" (now 0%nat)
                    (importAllData
                       (mergeSupabase dataType (exportAllData d) remoteData) d))
                 (uploadAll (api_post api)
                    (supabaseUploads dataType
                       (mergeSupabase dataType (exportAllData d) remoteData))).2
          else mkRun Thrown
                 (importAllData
                    (mergeSupabase dataType (exportAllData d) remoteData) d)
                 (uploadAll (api_post api)
                    (supabaseUploads dataType
                       (mergeSupabase dataType (exportAllData d) remoteData))).2.
Proof.
  unfold syncWithSupabase. destruct user as [uid|]; [|by left].
  destruct (decide (uid = 0)); [by left|].
  destruct (fetchSupabase dataType api) as [remoteData|]; [|right; by left].
  right. right. exists remoteData. split; [done|]. cbv zeta.
  by destruct (uploadAll _ _) as [[] sent].
Qed.

Lemma syncWithWebDAV_cases (now : nat → Date) (config : WebDAVConfig)
    (dataType : option DataType) (srv : WebDAVServer) (d : DB) :
  (enabled config = false
   ∧ syncWithWebDAV now config dataType srv d = mkRun (Returned false) d [])
  ∨ (connects srv = false
     ∧ syncWithWebDAV now config dataType srv d = mkRun Thrown d [])
  ∨ (connects srv = true
     ∧ syncWithWebDAV now config dataType srv d
       = if (uploadAll (accepts srv)
               (webdavUploads dataType
                  (mergeWebDAV dataType (exportAllData d) srv))).1
         then mkRun (Returned true)
                (saveMetadata "webdav-sync" (now 0%nat)
                   (importAllData (mergeWebDAV dataType (exportAllData d) srv) d))
                (uploadAll (accepts srv)
                   (webdavUploads dataType
                      (mergeWebDAV dataType (exportAllData d) srv))).2
         else mkRun Thrown
                (importAllData (mergeWebDAV dataType (exportAllData d) srv) d)
                (uploadAll (accepts srv)
                   (webdavUploads dataType
                      (mergeWebDAV dataType (exportAllData d) srv))).2).
Proof.
  unfold syncWithWebDAV. destruct (enabled config); simpl; [|by left].
  destruct (connects srv); simpl; [|right; by left].
  right. right. split; [done|].
  by destruct (uploadAll _ _) as [[] sent].
Qed.

(** X16.  The remote writes of a pass are sent in program order and stop at
    the first one that is refused: what was sent is an initial part of what
    the pass had to send and was accepted; the pass returns [true] only when
    everything was sent, and when it throws after the download the next
    write is one that the remote side refused. *)
Theorem uploads_stop_at_first_refusal (now : nat → Date) (user : option Z)
    (config : WebDAVConfig) (dataType : option DataType)
    (api : SupabaseApi) (srv : WebDAVServer) (d : DB) :
  (∀ remoteData, fetchSupabase dataType api = Some remoteData →
     uploaded (syncWithSupabase now user dataType api d)
       `prefix_of` supabaseUploads dataType
                     (mergeSupabase dataType (exportAllData d) remoteData)
     ∧ (outcome (syncWithSupabase now user dataType api d) = Returned true →
        uploaded (syncWithSupabase now user dataType api d)
        = supabaseUploads dataType
            (mergeSupabase dataType (exportAllData d) remoteData))
     ∧ (outcome (syncWithSupabase now user dataType api d) = Thrown →
        ∃ u, supabaseUploads dataType
               (mergeSupabase dataType (exportAllData d) remoteData)
             !! length (uploaded (syncWithSupabase now user dataType api d))
             = Some u
             ∧ api_post api u = false))
  ∧ (fetchSupabase dataType api = None →
     uploaded (syncWithSupabase now user dataType api d) = [])
  ∧ Forall (λ u, api_post api u = true)
           (uploaded (syncWithSupabase now user dataType api d))
  ∧ uploaded (syncWithWebDAV now config dataType srv d)
      `prefix_of` webdavUploads dataType (mergeWebDAV dataType (exportAllData d) srv)
  ∧ Forall (λ u, accepts srv u = true)
           (uploaded (syncWithWebDAV now config dataType srv d))
  ∧ (outcome (syncWithWebDAV now config dataType srv d) = Returned true →
     uploaded (syncWithWebDAV now config dataType srv d)
     = webdavUploads dataType (mergeWebDAV dataType (exportAllData d) srv))
  ∧ (outcome (syncWithWebDAV now config dataType srv d) = Thrown →
     connects srv = true →
     ∃ u, webdavUploads dataType (mergeWebDAV dataType (exportAllData d) srv)
          !! length (uploaded (syncWithWebDAV now config dataType srv d))
          = Some u
          ∧ accepts srv u = false).
Proof.
  split; [|split; [|split; [|split; [|split; [|split]]]]].
  - intros remoteData Hfetch.
    destruct (syncWithSupabase_cases now user dataType api d)
      as [-> | [[Hnone _] | (rd & Hrd & ->)]].
    + simpl. split; [apply prefix_nil|]. split; done.
    + congruence.
    + assert (rd = remoteData) as -> by congruence.
      destruct (uploadAll_spec (api_post api)
                  (supabaseUploads dataType
                     (mergeSupabase dataType (exportAllData d) remoteData)))
        as (Hpre & _ & Hok & Hbad).
      destruct (uploadAll _ _) as [[] sent]; simpl in *.
      * split; [done|]. split; [by intros _; apply Hok|done].
      * split; [done|]. split; [done|]. intros _. by apply Hbad.
  - intros Hfetch.
    destruct (syncWithSupabase_cases now user dataType api d)
      as [-> | [[_ ->] | (rd & Hrd & _)]]; [done..|congruence].
  - destruct (syncWithSupabase_cases now user dataType api d)
      as [-> | [[_ ->] | (rd & Hrd & ->)]]; [by apply Forall_nil..|].
    destruct (uploadAll_spec (api_post api)
                (supabaseUploads dataType
                   (mergeSupabase dataType (exportAllData d) rd)))
      as (_ & Hall & _).
    by destruct (uploadAll _ _) as [[] sent].
  - destruct (syncWithWebDAV_cases now config dataType srv d)
      as [[_ ->] | [[_ ->] | [_ ->]]]; [apply prefix_nil..|].
    destruct (uploadAll_spec (accepts srv)
                (webdavUploads dataType (mergeWebDAV dataType (exportAllData d) srv)))
      as (Hpre & _).
    by destruct (uploadAll _ _) as [[] sent].
  - destruct (syncWithWebDAV_cases now config dataType srv d)
      as [[_ ->] | [[_ ->] | [_ ->]]]; [by apply Forall_nil..|].
    destruct (uploadAll_spec (accepts srv)
                (webdavUploads dataType (mergeWebDAV dataType (exportAllData d) srv)))
      as (_ & Hall & _).
    by destruct (uploadAll _ _) as [[] sent].
  - destruct (syncWithWebDAV_cases now config dataType srv d)
      as [[_ ->] | [[_ ->] | [_ ->]]]; [done..|].
    destruct (uploadAll_spec (accepts srv)
                (webdavUploads dataType (mergeWebDAV dataType (exportAllData d) srv)))
      as (_ & _ & Hok & _).
    destruct (uploadAll _ _) as [[] sent]; simpl in *; [|done].
    intros _. by apply Hok.
  - destruct (syncWithWebDAV_cases now config dataType srv d)
      as [[_ ->] | [[Hc ->] | [_ ->]]]; [done|congruence|].
    destruct (uploadAll_spec (accepts srv)
                (webdavUploads dataType (mergeWebDAV dataType (exportAllData d) srv)))
      as (_ & _ & _ & Hbad).
    destruct (uploadAll _ _) as [[] sent]; simpl in *; [done|].
    intros _ _. by apply Hbad.
Qed.



(** X18.  A pass for one kind of data touches that kind only: a pass for
    notes leaves the folders and the tags of the local store as they were, a
    pass for folders or for tags leaves the notes and their links, and every
    remote write carries the kind that was asked for. *)
Theorem partial_pass_touches_only_its_kind (now : nat → Date) (user : option Z)
    (config : WebDAVConfig) (k : DataType)
    (api : SupabaseApi) (srv : WebDAVServer) (d : DB) :
  (k ≠ dtNotes →
     notes (local_after (syncWithSupabase now user (Some k) api d)) = notes d
     ∧ noteTags (local_after (syncWithSupabase now user (Some k) api d)) = noteTags d
     ∧ notes (local_after (syncWithWebDAV now config (Some k) srv d)) = notes d
     ∧ noteTags (local_after (syncWithWebDAV now config (Some k) srv d)) = noteTags d)
  ∧ (k ≠ dtFolders →
     folders (local_after (syncWithSupabase now user (Some k) api d)) = folders d
     ∧ folders (local_after (syncWithWebDAV now config (Some k) srv d)) = folders d)
  ∧ (k ≠ dtTags →
     tags (local_after (syncWithSupabase now user (Some k) api d)) = tags d
     ∧ tags (local_after (syncWithWebDAV now config (Some k) srv d)) = tags d)
  ∧ Forall (λ u, match u with
                 | UpFolders _ => k = dtFolders
                 | UpTags _ => k = dtTags
                 | _ => k = dtNotes
                 end)
           (uploaded (syncWithSupabase now user (Some k) api d)
            ++ uploaded (syncWithWebDAV now config (Some k) srv d)).
Proof.
  assert (∀ accepts P ups, Forall P ups → Forall P (uploadAll accepts ups).2) as Hsub.
  { intros accepts P ups Hups.
    destruct (uploadAll_spec accepts ups) as ([rest Hpre] & _).
    rewrite Hpre in Hups. by apply Forall_app in Hups as [? _]. }
  split; [|split; [|split]].
  - intros Hk.
    destruct (syncWithSupabase_cases now user (Some k) api d)
      as [-> | [[_ ->] | (rd & _ & ->)]];
    destruct (syncWithWebDAV_cases now config (Some k) srv d)
      as [[_ ->] | [[_ ->] | [_ ->]]];
    repeat match goal with
           | |- context [uploadAll ?a ?b] => destruct (uploadAll a b) as [[] ?]
           end;
    destruct k; try done; by repeat split.
  - intros Hk.
    destruct (syncWithSupabase_cases now user (Some k) api d)
      as [-> | [[_ ->] | (rd & _ & ->)]];
    destruct (syncWithWebDAV_cases now config (Some k) srv d)
      as [[_ ->] | [[_ ->] | [_ ->]]];
    repeat match goal with
           | |- context [uploadAll ?a ?b] => destruct (uploadAll a b) as [[] ?]
           end;
    destruct k; try done; by repeat split.
  - intros Hk.
    destruct (syncWithSupabase_cases now user (Some k) api d)
      as [-> | [[_ ->] | (rd & _ & ->)]];
    destruct (syncWithWebDAV_cases now config (Some k) srv d)
      as [[_ ->] | [[_ ->] | [_ ->]]];
    repeat match goal with
           | |- context [uploadAll ?a ?b] => destruct (uploadAll a b) as [[] ?]
           end;
    destruct k; try done; by repeat split.
  - apply Forall_app. split.
    + destruct (syncWithSupabase_cases now user (Some k) api d)
        as [-> | [[_ ->] | (rd & _ & ->)]]; [by apply Forall_nil..|].
      assert (Forall (λ u, match u with
                           | UpFolders _ => k = dtFolders
                           | UpTags _ => k = dtTags
                           | _ => k = dtNotes
                           end)
                (uploadAll (api_post api)
                   (supabaseUploads (Some k)
                      (mergeSupabase (Some k) (exportAllData d) rd))).2) as H.
      { apply Hsub. destruct k; simpl; by repeat constructor. }
      by destruct (uploadAll _ _) as [[] ?].
    + destruct (syncWithWebDAV_cases now config (Some k) srv d)
        as [[_ ->] | [[_ ->] | [_ ->]]]; [by apply Forall_nil..|].
      assert (Forall (λ u, match u with
                           | UpFolders _ => k = dtFolders
                           | UpTags _ => k = dtTags
                           | _ => k = dtNotes
                           end)
                (uploadAll (accepts srv)
                   (webdavUploads (Some k)
                      (mergeWebDAV (Some k) (exportAllData d) srv))).2) as H.
      { apply Hsub. destruct k; simpl; by repeat constructor. }
      by destruct (uploadAll _ _) as [[] ?].
Qed.

Lemma putAll_merge_getAll {P} (upd : Stored P → option Date)
    (s : ObjectStore P) (remote : list (Stored P)) :
  NoDup (id <$> remote) →
  getAll (putAll (Reconciler.mergeData id upd (getAll s) remote) s)
  ≡ₚ Reconciler.mergeData id upd (getAll s) remote.
Proof.
  intros Hr.
  assert (NoDup (id <$> Reconciler.mergeData id upd (getAll s) remote)) as Hnd.
  { apply MergeProps.mergeData_ids_NoDup; [apply rowsInKeyOrder_ids_NoDup|done]. }
  apply NoDup_Permutation.
  - apply (NoDup_fmap_1 id), rowsInKeyOrder_ids_NoDup.
  - by apply (NoDup_fmap_1 id).
  - intros x. unfold getAll at 1. rewrite elem_of_rowsInKeyOrder. split.
    + intros Hx.
      destruct (decide (id x ∈ id <$> Reconciler.mergeData id upd (getAll s) remote))
        as [Hin|Hout].
      * destruct (LocalStoreProps.putAll_lookup_in _ s _ Hin) as (y & Hy & Hid & Hrow).
        rewrite Hrow in Hx. injection Hx as Hp.
        assert (y = x) as <-; [|done]. destruct x, y; simpl in *; congruence.
      * rewrite LocalStoreProps.putAll_lookup_notin in Hx by done.
        destruct Hout. apply SyncFacts.mergeData_ids_local.
        apply list_elem_of_fmap_2. by apply elem_of_rowsInKeyOrder.
    + intros Hx.
      assert (id x ∈ id <$> Reconciler.mergeData id upd (getAll s) remote) as Hin
        by (by apply list_elem_of_fmap_2).
      destruct (LocalStoreProps.putAll_lookup_in _ s _ Hin) as (y & Hy & Hid & Hrow).
      rewrite Hrow. f_equal.
      by rewrite (NoDup_fmap_eq id _ y x Hnd Hy Hx Hid).
Qed.

(** X19.  After a full pass that got as far as the merge, the local store
    holds the merged records and no others, whether or not the remote
    writes went through, provided that the remote side gave no identifier
    twice within one array.  With X16 this makes the local store and the
    remote side agree after a pass that returned [true]. *)
Theorem full_pass_stores_the_merge (now : nat → Date) (uid : Z)
    (config : WebDAVConfig) (api : SupabaseApi) (remoteData : Data)
    (srv : WebDAVServer) (d : DB) :
  uid ≠ 0 → fetchSupabase None api = Some remoteData →
  enabled config = true → connects srv = true →
  (NoDup (id <$> default [] (data_notes remoteData))
   ∧ NoDup (id <$> default [] (data_folders remoteData))
   ∧ NoDup (id <$> default [] (data_tags remoteData))
   ∧ NoDup (id <$> default [] (data_noteTags remoteData))) →
  (NoDup (id <$> default [] (file_notes srv))
   ∧ NoDup (id <$> default [] (file_folders srv))
   ∧ NoDup (id <$> default [] (file_tags srv))
   ∧ NoDup (id <$> default [] (file_noteTags srv))) →
  (getAll (notes (local_after (syncWithSupabase now (Some uid) None api d)))
     ≡ₚ default [] (data_notes (mergeSupabase None (exportAllData d) remoteData))
   ∧ getAll (folders (local_after (syncWithSupabase now (Some uid) None api d)))
     ≡ₚ default [] (data_folders (mergeSupabase None (exportAllData d) remoteData))
   ∧ getAll (tags (local_after (syncWithSupabase now (Some uid) None api d)))
     ≡ₚ default [] (data_tags (mergeSupabase None (exportAllData d) remoteData))
   ∧ getAll (noteTags (local_after (syncWithSupabase now (Some uid) None api d)))
     ≡ₚ default [] (data_noteTags (mergeSupabase None (exportAllData d) remoteData)))
  ∧ (getAll (notes (local_after (syncWithWebDAV now config None srv d)))
     ≡ₚ default [] (data_notes (mergeWebDAV None (exportAllData d) srv))
   ∧ getAll (folders (local_after (syncWithWebDAV now config None srv d)))
     ≡ₚ default [] (data_folders (mergeWebDAV None (exportAllData d) srv))
   ∧ getAll (tags (local_after (syncWithWebDAV now config None srv d)))
     ≡ₚ default [] (data_tags (mergeWebDAV None (exportAllData d) srv))
   ∧ getAll (noteTags (local_after (syncWithWebDAV now config None srv d)))
     ≡ₚ default [] (data_noteTags (mergeWebDAV None (exportAllData d) srv))).
Proof.
  intros Huid Hfetch Hen Hco (Hn & Hf & Ht & Hl) (Wn & Wf & Wt & Wl). split.
  - unfold syncWithSupabase. rewrite decide_False by done. rewrite Hfetch.
    cbv zeta.
    match goal with
    | |- context [uploadAll ?a ?b] => destruct (uploadAll a b) as [[] sent]
    end.
    all: simpl; (split; [|split; [|split]]).
    all: apply putAll_merge_getAll; assumption.
  - destruct (syncWithWebDAV_cases now config None srv d)
      as [[? _] | [[? _] | [_ ->]]]; [congruence..|].
    match goal with
    | |- context [uploadAll ?a ?b] => destruct (uploadAll a b) as [[] sent]
    end.
    all: simpl; rewrite !SyncFacts.downloadAndMerge_default.
    all: split; [|split; [|split]].
    all: apply putAll_merge_getAll; assumption.
Qed.

(** X20.  The sync functions of the hook: before the hook is initialised
    they do nothing and return [undefined]; with local storage, with WebDAV
    that is not configured and with Supabase without a user they start no
    pass and return [true]; otherwise they return [false] exactly when the
    pass throws, and [true] also when the pass itself returned [false]
    without doing anything.  Only [syncData] shows the toast, and only then. *)
Theorem hook_sync_outcomes (now : nat → Date) (dataType : option DataType)
    (toast : bool) (h : Hook) (api : SupabaseApi) (srv : WebDAVServer) (d : DB) :
  (isInitialized h = false →
   hookSync now dataType toast h api srv d = mkHookRun None d [] false)
  ∧ (isInitialized h = true → hookPass now dataType h api srv d = None →
     hookSync now dataType toast h api srv d = mkHookRun (Some true) d [] false)
  ∧ (hook_type h = stLocal
     ∨ (hook_type h = stWebdav ∧ hook_webdavConfig h = None)
     ∨ (hook_type h = stSupabase ∧ hook_user h = None) →
     hookPass now dataType h api srv d = None)
  ∧ (returned (hookSync now dataType toast h api srv d) = Some false
     ↔ isInitialized h = true
       ∧ ∃ r, hookPass now dataType h api srv d = Some r ∧ outcome r = Thrown)
  ∧ (sync_failed_toast (hookSync now dataType toast h api srv d) = true
     ↔ toast = true
       ∧ returned (hookSync now dataType toast h api srv d) = Some false)
  ∧ (∀ r, isInitialized h = true →
          hookPass now dataType h api srv d = Some r →
          outcome r = Returned false →
          hookSync now dataType toast h api srv d = mkHookRun (Some true) d [] false)
  ∧ sync_failed_toast (syncNotes now h api srv d) = false
  ∧ sync_failed_toast (syncFolders now h api srv d) = false
  ∧ sync_failed_toast (syncTags now h api srv d) = false.
Proof.
  assert (∀ dt t, t = false → sync_failed_toast (hookSync now dt t h api srv d) = false)
    as Hquiet.
  { intros dt t ->. unfold hookSync. destruct (isInitialized h); simpl; [|done].
    destruct (hookPass _ _ _ _ _ _) as [r|]; [|done]. by destruct (outcome r). }
  split; [|split; [|split; [|split; [|split; [|split; [|split; [|split]]]]]]].
  - intros Hi. unfold hookSync. by rewrite Hi.
  - intros Hi Hp. unfold hookSync. by rewrite Hi, Hp.
  - unfold hookPass. intros [-> | [[-> ->] | [-> ->]]]; [done..|].
    by destruct (hook_webdavConfig h).
  - unfold hookSync. destruct (isInitialized h); simpl.
    + destruct (hookPass _ _ _ _ _ _) as [r|]; simpl.
      * destruct (outcome r) eqn:Ho; simpl.
        -- split; [done|]. intros [_ (r' & Hr' & Ho')]. congruence.
        -- split; [|done]. intros _. split; [done|]. by exists r.
      * split; [done|]. by intros [_ (r' & Hr' & _)].
    + split; [done|]. by intros [? _].
  - unfold hookSync. destruct (isInitialized h); simpl.
    + destruct (hookPass _ _ _ _ _ _) as [r|]; simpl.
      * destruct (outcome r); simpl; [by split; [|intros [_ ?]]|].
        split; [done|]. by intros [? _].
      * by split; [|intros [_ ?]].
    + by split; [|intros [_ ?]].
  - intros r Hi Hp Ho. unfold hookSync. rewrite Hi, Hp, Ho. simpl.
    assert (local_after r = d ∧ uploaded r = []) as [-> ->]; [|done].
    unfold hookPass in Hp.
    destruct (hook_type h), (hook_webdavConfig h) as [config|],
      (hook_user h) as [uid|]; try discriminate Hp;
      apply (inj Some) in Hp as <-.
    + destruct (syncWithWebDAV_cases now config dataType srv d)
        as [[_ Hr] | [[_ Hr] | [_ Hr]]]; rewrite Hr in Ho |- *; try done.
      by destruct (uploadAll _ _) as [[] ?].
    + destruct (syncWithWebDAV_cases now config dataType srv d)
        as [[_ Hr] | [[_ Hr] | [_ Hr]]]; rewrite Hr in Ho |- *; try done.
      by destruct (uploadAll _ _) as [[] ?].
    + destruct (syncWithSupabase_cases now (Some uid) dataType api d)
        as [Hr | [[_ Hr] | (rd & _ & Hr)]]; rewrite Hr in Ho |- *; try done.
      by destruct (uploadAll _ _) as [[] ?].
    + destruct (syncWithSupabase_cases now (Some uid) dataType api d)
        as [Hr | [[_ Hr] | (rd & _ & Hr)]]; rewrite Hr in Ho |- *; try done.
      by destruct (uploadAll _ _) as [[] ?].
  - by apply Hquiet.
  - by apply Hquiet.
  - by apply Hquiet.
Qed.

End SyncProps.

(** ** The class [IndexedDBStorage] *)

Module DbProps.
Import Db.






(** *** Deleting notes, tags and links *)

Lemma deleteRelations_spec (links : list NoteTag) (d : IndexedDBStorage) :
  notes (deleteRelations links d) = notes d
  ∧ folders (deleteRelations links d) = folders d
  ∧ tags (deleteRelations links d) = tags d
  ∧ idCounters (deleteRelations links d) = idCounters d
  ∧ connected (deleteRelations links d) = connected d
  ∧ ∀ k, noteTags (deleteRelations links d) !! k
         = if decide (k ∈ id <$> links) then None else noteTags d !! k.
Proof.
  revert d. induction links as [|nt links IH]; intros d.
  - repeat split; done.
  - change (deleteRelations (nt :: links) d)
      with (deleteRelations links (deleteItem stNoteTags (id nt) d).2).
    destruct (IH (deleteItem stNoteTags (id nt) d).2)
      as (-> & -> & -> & -> & -> & Hrows).
    repeat split; try done. intros k. rewrite Hrows.
    cbn [deleteItem snd set_items noteTags items]. rewrite fmap_cons.
    destruct (decide (k ∈ id <$> links)) as [Hin|Hout].
    + rewrite decide_True; [done|]. apply elem_of_cons. by right.
    + destruct (decide (k = id nt)) as [->|Hne].
      * rewrite lookup_delete_eq, decide_True; [done|]. apply elem_of_cons. by left.
      * rewrite lookup_delete_ne by done.
        rewrite decide_False; [done|]. intros [?|?]%elem_of_cons; done.
Qed.

Lemma elem_of_filter_links (f : NoteTag → bool) (d : IndexedDBStorage) k :
  k ∈ id <$> List.filter f (getAllItems stNoteTags d)
  ↔ ∃ p, noteTags d !! k = Some p ∧ f (mkStored k p) = true.
Proof.
  unfold getAllItems. rewrite list_elem_of_fmap. split.
  - intros (x & -> & Hx). apply list_elem_of_In, filter_In in Hx as [Hx Hf].
    apply list_elem_of_In, elem_of_rowsInKeyOrder in Hx.
    exists (props x). split; [done|]. by destruct x.
  - intros (p & Hp & Hf). exists (mkStored k p). split; [done|].
    apply list_elem_of_In, filter_In. split; [|done].
    by apply list_elem_of_In, elem_of_rowsInKeyOrder.
Qed.

(** X22.  [deleteNote] removes the note and exactly the links of the note,
    [deleteTag] the tag and exactly the links of the tag; the other tables
    are as they were. *)
Theorem db_delete_cascades (k : Z) (d : IndexedDBStorage) :
  ((deleteNote k d).1 = true
   ∧ notes (deleteNote k d).2 = delete k (notes d)
   ∧ (∀ j, noteTags (deleteNote k d).2 !! j
           = match noteTags d !! j with
             | Some p => if decide (noteId p = k) then None else Some p
             | None => None
             end)
   ∧ tags (deleteNote k d).2 = tags d
   ∧ folders (deleteNote k d).2 = folders d)
  ∧ ((deleteTag k d).1 = true
     ∧ tags (deleteTag k d).2 = delete k (tags d)
     ∧ (∀ j, noteTags (deleteTag k d).2 !! j
             = match noteTags d !! j with
               | Some p => if decide (tagId p = k) then None else Some p
               | None => None
               end)
     ∧ notes (deleteTag k d).2 = notes d
     ∧ folders (deleteTag k d).2 = folders d).
Proof.
  pose proof (DbFacts.items_init stNotes d) as Hn.
  pose proof (DbFacts.items_init stTags d) as Ht.
  pose proof (DbFacts.items_init stFolders d) as Hf.
  pose proof (DbFacts.items_init stNoteTags d) as Hl.
  cbn [items] in Hn, Ht, Hf, Hl.
  split.
  - unfold deleteNote. cbv zeta.
    destruct (deleteRelations_spec (noteTagsOfNote k (init d)) (init d))
      as (Hn' & Hf' & Ht' & _ & _ & Hrows).
    cbn [deleteItem fst snd set_items items notes tags folders noteTags].
    rewrite Hn', Hf', Ht', Hn, Hf, Ht. repeat split; try done.
    intros j. rewrite Hrows, Hl. unfold noteTagsOfNote.
    destruct (decide (j ∈ _)) as [Hin|Hout].
    + apply elem_of_filter_links in Hin as (p & Hp & Hk).
      rewrite Hl in Hp. rewrite Hp. apply bool_decide_eq_true in Hk.
      by rewrite decide_True.
    + destruct (noteTags d !! j) as [p|] eqn:Hj; [|done].
      rewrite decide_False; [done|]. intros Hp. apply Hout.
      apply elem_of_filter_links. exists p. rewrite Hl. split; [done|].
      by apply bool_decide_eq_true.
  - unfold deleteTag. cbv zeta.
    destruct (deleteRelations_spec (noteTagsOfTag k (init d)) (init d))
      as (Hn' & Hf' & Ht' & _ & _ & Hrows).
    cbn [deleteItem fst snd set_items items notes tags folders noteTags].
    rewrite Hn', Hf', Ht', Hn, Hf, Ht. repeat split; try done.
    intros j. rewrite Hrows, Hl. unfold noteTagsOfTag.
    destruct (decide (j ∈ _)) as [Hin|Hout].
    + apply elem_of_filter_links in Hin as (p & Hp & Hk).
      rewrite Hl in Hp. rewrite Hp. apply bool_decide_eq_true in Hk.
      by rewrite decide_True.
    + destruct (noteTags d !! j) as [p|] eqn:Hj; [|done].
      rewrite decide_False; [done|]. intros Hp. apply Hout.
      apply elem_of_filter_links. exists p. rewrite Hl. split; [done|].
      by apply bool_decide_eq_true.
Qed.




(** *** Updating *)



(** *** Export and import *)





End DbProps.

(** ** Attaching a tag twice *)

Module LinkProps.

Lemma db_existingRelation_Some n t (d : Db.IndexedDBStorage) k :
  Db.noteTags d !! k = Some (Db.mkNoteTagProps n t) →
  is_Some (Db.existingRelation n t d).
Proof.
  intros Hk. destruct (Db.existingRelation n t d) eqn:Hfind; [by eexists|].
  by destruct (LinkFacts.db_find_none n t d Hfind k _ Hk).
Qed.

Lemma db_addTagToNote_connected n t (d : Db.IndexedDBStorage) :
  Db.connected (Db.addTagToNote n t d).2 = true.
Proof.
  destruct (Db.existingRelation n t (Db.init d)) eqn:Hfind.
  - unfold Db.addTagToNote. cbv zeta. rewrite Hfind. apply DbFacts.connected_init.
  - rewrite (LinkFacts.db_addTagToNote_None _ _ _ Hfind).
    apply DbFacts.connected_init.
Qed.

Lemma local_existsb_link n t (d : LocalStorage.DB) k :
  LocalStorage.rows (LocalStorage.noteTags d) !! k
  = Some (LocalStorage.mkNoteTagProps n t) →
  existsb (λ nt : LocalStorage.NoteTag,
             bool_decide (LocalStorage.tagId (props nt) = t))
          (LocalStorage.noteTagsByNote n d) = true.
Proof.
  intros Hk. apply existsb_exists.
  exists (mkStored k (LocalStorage.mkNoteTagProps n t)). split.
  - apply filter_In. split.
    + by apply list_elem_of_In, elem_of_rowsInKeyOrder.
    + by apply bool_decide_eq_true.
  - by apply bool_decide_eq_true.
Qed.

(** X26.  Attaching to a note a tag that it already carries changes nothing
    in any of the three stores.  They differ in what they answer: the
    IndexedDB class resolves, the local store of the sync passes throws
    "This tag is already added to the note", and the server returns a link
    that joins the note and the tag. *)
Theorem addTagToNote_again_changes_nothing (n t : Z) (d : Db.IndexedDBStorage)
    (db : LocalStorage.DB) (s : MemStorage.MemStorage) :
  Db.addTagToNote n t (Db.addTagToNote n t d).2
  = (Ok (), (Db.addTagToNote n t d).2)
  ∧ LocalStorage.addTagToNote n t (LocalStorage.addTagToNote n t db).2
    = (Err "This tag is already added to the note",
       (LocalStorage.addTagToNote n t db).2)
  ∧ (MemStorage.addTagToNote n t (MemStorage.addTagToNote n t s).2).2
    = (MemStorage.addTagToNote n t s).2
  ∧ MemStorage.linkOf (MemStorage.addTagToNote n t (MemStorage.addTagToNote n t s).2).1
    = (Val n, Val t).
Proof.
  split; [|split].
  - destruct (LinkFacts.db_addTagToNote_links n t d) as [_ [k Hk]].
    pose proof (db_addTagToNote_connected n t d) as Hc.
    set (d1 := (Db.addTagToNote n t d).2) in *.
    assert (Db.init d1 = d1) as Hinit by (unfold Db.init; by rewrite Hc).
    destruct (db_existingRelation_Some n t d1 k Hk) as [x Hx].
    unfold Db.addTagToNote at 1. cbv zeta. by rewrite Hinit, Hx.
  - assert (existsb (λ nt : LocalStorage.NoteTag,
                       bool_decide (LocalStorage.tagId (props nt) = t))
                    (LocalStorage.noteTagsByNote n (LocalStorage.addTagToNote n t db).2)
            = true) as Hex.
    { unfold LocalStorage.addTagToNote. cbv zeta.
      match goal with
      | |- context [existsb ?f (LocalStorage.noteTagsByNote n db)] =>
          destruct (existsb f (LocalStorage.noteTagsByNote n db)) eqn:Hfirst
      end; [done|].
      apply (local_existsb_link n t _ (LocalStorage.keygen (LocalStorage.noteTags db))).
      simpl. apply lookup_insert_eq. }
    set (d1 := (LocalStorage.addTagToNote n t db).2) in *.
    unfold LocalStorage.addTagToNote. cbv zeta.
    match goal with
    | |- context [existsb ?f (LocalStorage.noteTagsByNote n d1)] =>
        change (existsb f (LocalStorage.noteTagsByNote n d1))
          with (existsb (λ nt : LocalStorage.NoteTag,
                           bool_decide (LocalStorage.tagId (props nt) = t))
                        (LocalStorage.noteTagsByNote n d1))
    end.
    by rewrite Hex.
  - assert (∃ e, List.find (λ nt, bool_decide (MemStorage.noteId nt = Val n)
                                   && bool_decide (MemStorage.tagId nt = Val t))
                   (MemStorage.values
                      (MemStorage.noteTags (MemStorage.addTagToNote n t s).2))
                 = Some e) as [e He].
    { unfold MemStorage.addTagToNote.
      destruct (List.find _ (MemStorage.values (MemStorage.noteTags s)))
        as [e|] eqn:Hfirst; [by exists e|].
      cbn [snd MemStorage.noteTags]. clear Hfirst.
      set (nt := MemStorage.mkNoteTag (MemStorage.noteTagIdCounter s) (Val n) (Val t)).
      match goal with
      | |- ∃ e, ?found = Some e =>
          destruct found as [e|] eqn:Hsecond; [by exists e|]
      end.
      assert (In nt (MemStorage.values
                       (<[MemStorage.noteTagIdCounter s := nt]> (MemStorage.noteTags s))))
        as Hin.
      { apply list_elem_of_In. unfold MemStorage.values. apply list_elem_of_fmap.
        exists (MemStorage.noteTagIdCounter s, nt). split; [done|].
        apply elem_of_map_to_list, lookup_insert_eq. }
      pose proof (List.find_none _ _ Hsecond _ Hin) as Hf. simpl in Hf.
      by rewrite !bool_decide_eq_true_2 in Hf. }
    set (s1 := (MemStorage.addTagToNote n t s).2) in *.
    unfold MemStorage.addTagToNote. cbv zeta. rewrite He.
    split; [done|]. simpl.
    apply List.find_some in He as [_ Hp].
    apply andb_true_iff in Hp as [H1%bool_decide_eq_true H2%bool_decide_eq_true].
    unfold MemStorage.linkOf. by rewrite H1, H2.
Qed.

End LinkProps.

(** ** The in-memory store of the server *)

Module MemProps.
Import MemStorage.

Lemma entries_find_Some n t (m : gmap Z NoteTag) e :
  List.find (λ e : Z * NoteTag,
               bool_decide (noteId e.2 = Val n) && bool_decide (tagId e.2 = Val t))
            (entries m) = Some e →
  m !! e.1 = Some e.2 ∧ linkOf e.2 = (Val n, Val t).
Proof.
  intros Hfind. apply List.find_some in Hfind as [Hin Hp].
  apply list_elem_of_In in Hin. unfold entries in Hin.
  destruct e as [k nt]. apply elem_of_map_to_list in Hin.
  apply andb_true_iff in Hp as [H1%bool_decide_eq_true H2%bool_decide_eq_true].
  split; [done|]. unfold linkOf. simpl in *. by rewrite H1, H2.
Qed.

Lemma entries_find_None n t (m : gmap Z NoteTag) :
  List.find (λ e : Z * NoteTag,
               bool_decide (noteId e.2 = Val n) && bool_decide (tagId e.2 = Val t))
            (entries m) = None →
  ∀ k nt, m !! k = Some nt → linkOf nt ≠ (Val n, Val t).
Proof.
  intros Hfind k nt Hk Hp. unfold linkOf in Hp. injection Hp as H1 H2.
  assert (In (k, nt) (entries m)) as Hin
    by (by apply list_elem_of_In, elem_of_map_to_list).
  pose proof (List.find_none _ _ Hfind _ Hin) as Hf. simpl in Hf.
  by rewrite !bool_decide_eq_true_2 in Hf.
Qed.

Lemma values_find_None n t (m : gmap Z NoteTag) :
  (∀ k nt, m !! k = Some nt → linkOf nt ≠ (Val n, Val t)) →
  List.find (λ nt, bool_decide (noteId nt = Val n) && bool_decide (tagId nt = Val t))
            (values m) = None.
Proof.
  intros Hno. destruct (List.find _ _) as [nt|] eqn:Hfind; [|done].
  apply List.find_some in Hfind as [Hin Hp].
  apply list_elem_of_In in Hin. unfold values in Hin.
  apply list_elem_of_fmap in Hin as ([k nt'] & -> & Hin).
  apply elem_of_map_to_list in Hin.
  apply andb_true_iff in Hp as [H1%bool_decide_eq_true H2%bool_decide_eq_true].
  destruct (Hno k nt' Hin). unfold linkOf. simpl in *. by rewrite H1, H2.
Qed.

(** X27.  [removeTagFromNote] of the server returns [false] and changes
    nothing when no link joins the note and the tag; otherwise it deletes
    one link that joins them.  It never moves the counter back: after a tag
    has been attached and detached again the links are as before, and the
    identifier of the removed link is not given out again. *)
Theorem mem_removeTagFromNote_spec (n t : Z) (s : MemStorage) :
  ((∀ k nt, noteTags s !! k = Some nt → linkOf nt ≠ (Val n, Val t)) →
   removeTagFromNote n t s = (false, s))
  ∧ ((removeTagFromNote n t s).1 = true →
     ∃ k nt, noteTags s !! k = Some nt ∧ linkOf nt = (Val n, Val t)
             ∧ noteTags (removeTagFromNote n t s).2 = delete k (noteTags s))
  ∧ noteTagIdCounter (removeTagFromNote n t s).2 = noteTagIdCounter s
  ∧ (memOk s →
     (∀ k nt, noteTags s !! k = Some nt → linkOf nt ≠ (Val n, Val t)) →
     removeTagFromNote n t (addTagToNote n t s).2
     = (true, mkMem (noteTags s) (noteTagIdCounter s + 1))
     ∧ memOk (removeTagFromNote n t (addTagToNote n t s).2).2).
Proof.
  split; [|split; [|split]].
  - intros Hno. unfold removeTagFromNote. cbv zeta.
    destruct (List.find _ _) as [e|] eqn:Hfind; [|done].
    apply entries_find_Some in Hfind as [He Hp]. by destruct (Hno _ _ He).
  - unfold removeTagFromNote. cbv zeta.
    destruct (List.find _ _) as [e|] eqn:Hfind; [|done].
    intros _. apply entries_find_Some in Hfind as [He Hp].
    by exists e.1, e.2.
  - unfold removeTagFromNote. cbv zeta. by destruct (List.find _ _).
  - intros Hok Hno.
    assert (noteTags s !! noteTagIdCounter s = None) as Hfresh.
    { apply eq_None_not_Some. intros [nt Hnt].
      destruct (Hok _ _ Hnt) as [_ Hlt]. lia. }
    assert (addTagToNote n t s
            = (mkNoteTag (noteTagIdCounter s) (Val n) (Val t),
               mkMem (<[noteTagIdCounter s :=
                          mkNoteTag (noteTagIdCounter s) (Val n) (Val t)]> (noteTags s))
                     (noteTagIdCounter s + 1))) as ->.
    { unfold addTagToNote. cbv zeta. by rewrite (values_find_None n t _ Hno). }
    cbn [snd]. unfold removeTagFromNote. cbv zeta. cbn [noteTags noteTagIdCounter].
    destruct (List.find _ _) as [e|] eqn:Hfind.
    + apply entries_find_Some in Hfind as [He Hp].
      assert (e.1 = noteTagIdCounter s) as ->.
      { destruct (decide (e.1 = noteTagIdCounter s)) as [|Hne]; [done|].
        rewrite lookup_insert_ne in He by done. by destruct (Hno _ _ He). }
      rewrite delete_insert_id by done. split; [done|].
      intros k nt Hk. simpl in Hk |- *.
      destruct (Hok _ _ Hk) as [? ?]. split; [done|lia].
    + destruct (entries_find_None n t _ Hfind (noteTagIdCounter s)
                  (mkNoteTag (noteTagIdCounter s) (Val n) (Val t))); [|done].
      apply lookup_insert_eq.
Qed.

End MemProps.

(** ** The storage mode *)

Module ModeProps.
Import Mode.

(** X28.  Asking for the WebDAV storage before a configuration has been set
    fails with "WebDAV must be configured first" and leaves the provider as
    it was, for [setStorageType] and for [changeStorageType], which reports
    it in a toast.  Once [configureWebdav] has stored a configuration whose
    test went through, the same request succeeds.  Removing the
    configuration later does not leave the WebDAV mode. *)
Theorem webdav_requires_configuration (isAuthenticated init_ok : bool)
    (p : Provider) (toasts : list Toast) (config : WebDAVConfig) (msg : string) :
  (webdavConfig p = None →
   setStorageType isAuthenticated init_ok webdav p
   = (Err "WebDAV must be configured first", p)
   ∧ changeStorageType isAuthenticated init_ok webdav (p, toasts)
     = (Err "WebDAV must be configured first",
        (p, toasts ++ [mkToast "Storage change failed"
                               "WebDAV must be configured first" true])))
  ∧ ((configureWebdav false msg config (p, toasts)).1 = false
     ∧ (configureWebdav false msg config (p, toasts)).2.1 = p)
  ∧ ((changeStorageType isAuthenticated init_ok webdav
        (configureWebdav true msg config (p, toasts)).2).1 = Ok ()
     ∧ storageType (changeStorageType isAuthenticated init_ok webdav
                      (configureWebdav true msg config (p, toasts)).2).2.1 = webdav
     ∧ webdavConfig (changeStorageType isAuthenticated init_ok webdav
                       (configureWebdav true msg config (p, toasts)).2).2.1
       = Some config)
  ∧ storageType (setWebdavConfig None p) = storageType p.
Proof.
  split; [|split; [|split]].
  - intros Hnone. unfold changeStorageType, setStorageType. rewrite Hnone.
    by destruct isAuthenticated.
  - done.
  - done.
  - done.
Qed.

(** X29.  What a change of the storage type leaves.  When it succeeds the
    provider is in the type asked for and [localStorage] holds it.  When it
    fails on one of its two guards nothing has changed.  A change to the
    local storage whose [localDb.init()] fails is reported as a failure, but
    the provider is in local mode all the same.  In every case the React
    states stay in step with [localStorage]. *)
Theorem setStorageType_outcomes (isAuthenticated init_ok : bool)
    (type : StorageType) (p : Provider) :
  ((setStorageType isAuthenticated init_ok type p).1 = Ok () →
   storageType (setStorageType isAuthenticated init_ok type p).2 = type
   ∧ saved_type (setStorageType isAuthenticated init_ok type p).2 = Some type)
  ∧ (∀ msg, (setStorageType isAuthenticated init_ok type p).1 = Err msg →
            (type ≠ local ∧ (setStorageType isAuthenticated init_ok type p).2 = p)
            ∨ (type = local ∧ init_ok = false
               ∧ storageType (setStorageType isAuthenticated init_ok type p).2 = local
               ∧ saved_type (setStorageType isAuthenticated init_ok type p).2
                 = Some local))
  ∧ webdavConfig (setStorageType isAuthenticated init_ok type p).2 = webdavConfig p
  ∧ (inStep p → inStep (setStorageType isAuthenticated init_ok type p).2)
  ∧ (∀ config, inStep p → inStep (setWebdavConfig config p))
  ∧ (∀ savedType savedConfig, inStep (mount savedType savedConfig)).
Proof.
  split; [|split; [|split; [|split; [|split]]]].
  - unfold setStorageType.
    destruct type, isAuthenticated, init_ok, (webdavConfig p); simpl; try done.
  - intros msg. unfold setStorageType.
    destruct type, isAuthenticated, init_ok, (webdavConfig p); simpl; try done;
      intros _; try (by left); right; by repeat split.
  - unfold setStorageType.
    by destruct type, isAuthenticated, init_ok, (webdavConfig p) eqn:E.
  - unfold setStorageType, inStep. destruct p as [ty cfg sty scfg inits].
    simpl. intros [H1 H2].
    by destruct type, isAuthenticated, init_ok, cfg.
  - by intros config [H1 H2].
  - done.
Qed.


End ModeProps.

(** ** The further properties on the sample data *)

Module PropsExamples.
Import LocalStorage Sync Examples MoreExamples.

Lemma storeOk_emptyStore {P} : storeOk (@emptyStore P).
Proof.
  split; [simpl; lia|]. intros k [p Hk]. simpl in Hk.
  rewrite lookup_empty in Hk. discriminate Hk.
Defined.

Lemma storeOk_single {P} (k g : Z) (p : P) :
  1 ≤ g → k < g → storeOk (mkStore {[k := p]} g).
Proof.
  intros Hg Hk. split; [exact Hg|]. intros j [q Hj]. simpl in Hj.
  apply lookup_singleton_Some in Hj as [<- _]. exact Hk.
Defined.


Lemma merge_disjoint_witness :
  Reconciler.mergeData id note_updatedAt [local7] [remote8] = [local7; remote8]
  ∧ Reconciler.downloadAndMerge id note_updatedAt (Some [remote8]) [local7]
    = [local7; remote8]
  ∧ length (Reconciler.mergeData id note_updatedAt [local7] [remote8]) = 2%nat.
Proof.
  apply (MergeProps.merge_disjoint id note_updatedAt [local7] [remote8]).
  - intros r Hr. apply list_elem_of_singleton in Hr. subst r. simpl. lia.
  - intros l r Hl Hr. apply list_elem_of_singleton in Hl, Hr. subst l r.
    simpl. lia.
Defined.

Lemma merge_keeps_local_positions_witness :
  (length [local7] ≤ length (Reconciler.mergeData id note_updatedAt
                               [local7] [remote7_newer; remote8]))%nat
  ∧ ∃ x, Reconciler.mergeData id note_updatedAt [local7] [remote7_newer; remote8]
         !! 0%nat = Some x
         ∧ id x = id local7.
Proof.
  apply (MergeProps.merge_keeps_local_positions id note_updatedAt
           [local7] [remote7_newer; remote8] 0 local7).
  reflexivity.
Defined.

Lemma merge_ids_distinct_witness :
  NoDup (id <$> Reconciler.mergeData id note_updatedAt [local7] [remote7_newer; remote8])
  ∧ NoDup (id <$> Reconciler.downloadAndMerge id note_updatedAt
                    (Some [remote7_newer; remote8]) [local7]).
Proof.
  apply (MergeProps.merge_ids_distinct id note_updatedAt
           [local7] [remote7_newer; remote8]).
  - apply (bool_decide_unpack _). vm_compute. exact I.
  - apply (bool_decide_unpack _). vm_compute. exact I.
Defined.

Lemma merge_without_timestamp_witness :
  take (length [folderA])
       (Reconciler.mergeData id no_updatedAt [folderA] [folderA_remote; folderB])
  = [folderA]
  ∧ take (length [folderA])
         (Reconciler.downloadAndMerge id no_updatedAt
            (Some [folderA_remote; folderB]) [folderA])
    = [folderA].
Proof.
  apply (MergeProps.merge_without_timestamp_keeps_local id no_updatedAt
           [folderA] [folderA_remote; folderB]).
  intros l _. reflexivity.
Defined.

Lemma merge_invalid_date_witness :
  Reconciler.mergeData id note_updatedAt [local7] [remote7_undated] !! 0%nat
  = Some remote7_undated
  ∧ Reconciler.downloadAndMerge id note_updatedAt (Some [remote7_undated]) [local7]
    !! 0%nat
    = Some remote7_undated.
Proof.
  apply (MergeProps.merge_invalid_date_keeps_remote id note_updatedAt
           [local7] [remote7_undated] 0 local7 remote7_undated
           (TimeMs 1000) InvalidDate).
  - reflexivity.
  - simpl. lia.
  - apply list_elem_of_singleton. reflexivity.
  - reflexivity.
  - intros r' Hr' _. apply list_elem_of_singleton in Hr'. exact Hr'.
  - reflexivity.
  - reflexivity.
  - right. reflexivity.
Defined.

Lemma removeTagFromNote_witness :
  removeTagFromNote 5 9 dangling
  = (Ok true, set_noteTags (delete_key 1 (noteTags dangling)) dangling).
Proof.
  destruct (LocalStoreProps.removeTagFromNote_removes_the_link 5 9 dangling)
    as (_ & Hrm & _).
  - intros k1 k2 a b Ha Hb _. simpl in Ha, Hb.
    apply lookup_singleton_Some in Ha as [<- _].
    apply lookup_singleton_Some in Hb as [<- _]. reflexivity.
  - apply (Hrm 1 (mkNoteTagProps 5 9)); reflexivity.
Defined.

Lemma addTagToNote_removeTagFromNote_witness :
  (removeTagFromNote 5 9 (addTagToNote 5 9 withNote5).2).1 = Ok true
  ∧ rows (noteTags (removeTagFromNote 5 9 (addTagToNote 5 9 withNote5).2).2)
    = rows (noteTags withNote5)
  ∧ keygen (noteTags (removeTagFromNote 5 9 (addTagToNote 5 9 withNote5).2).2)
    = keygen (noteTags withNote5) + 1.
Proof.
  apply (LocalStoreProps.addTagToNote_removeTagFromNote 5 9 withNote5).
  - apply storeOk_emptyStore.
  - intros j p Hj. simpl in Hj. rewrite lookup_empty in Hj. discriminate Hj.
Defined.


Lemma saveNote_unknown_id_witness :
  (saveNote ticks retitle8 withNote5).1 = Some (mkStored 8 newTitle)
  ∧ rows (notes (saveNote ticks retitle8 withNote5).2)
    = <[8 := newTitle]> (rows (notes withNote5))
  ∧ 8 < keygen (notes (saveNote ticks retitle8 withNote5).2)
  ∧ storeOk (notes (saveNote ticks retitle8 withNote5).2).
Proof.
  apply (LocalStoreProps.saveNote_unknown_id_stores_as_given ticks retitle8
           withNote5 8).
  - apply storeOk_single; lia.
  - reflexivity.
  - lia.
  - reflexivity.
Defined.


Lemma full_pass_witness :
  getAll (notes (local_after (syncWithSupabase ticks (Some 1) None readOnlyApi withNote5)))
  ≡ₚ default [] (data_notes (mergeSupabase None (exportAllData withNote5) note8Only))
  ∧ getAll (notes (local_after
                     (syncWithWebDAV ticks webdavOn None readOnlyServer withNote5)))
    ≡ₚ default [] (data_notes
                     (mergeWebDAV None (exportAllData withNote5) readOnlyServer)).
Proof.
  destruct (SyncProps.full_pass_stores_the_merge ticks 1 webdavOn readOnlyApi
              note8Only readOnlyServer withNote5) as [(H1 & _) (H2 & _)].
  - lia.
  - reflexivity.
  - reflexivity.
  - reflexivity.
  - repeat split; apply (bool_decide_unpack _); vm_compute; exact I.
  - repeat split; apply (bool_decide_unpack _); vm_compute; exact I.
  - split; [exact H1|exact H2].
Defined.



End PropsExamples.
